(** * Field engines of the netflow plugin (emu/plugins/netflow/engine.go)

    A shallow embedding of the unsigned-integer field engine, the histogram
    field engine and the histogram entries, and of the method repository of
    external/osamingo/jsonrpc/method.go, followed by the properties
    established about them.

    Conventions of the embedding.
    - Go's fixed-width unsigned integers are integers of [Z] whose wrap-around
      is written out at every arithmetic operation ([uint8], [uint16],
      [uint32], [uint64]); a [rune] is an [int32].
    - A byte slice is a list of bytes, a byte being an integer in [0, 256).
      An indexed store outside the slice is a run-time panic in Go and is a
      [Panic] here.
    - A Go function returning [(value, error)] returns a [result]: [Ok], [Err]
      with the error that the source builds, or [Panic] when the Go run time
      aborts the call (integer division by zero, index out of range, [make]
      with a negative length).
    - The process-wide pseudo-random source is an input: each call that
      consumes one draw takes the drawn number as an argument. *)

From Stdlib Require Import ZArith Lia String List Bool.
From stdpp Require Import base list gmap strings.
Import ListNotations.

Local Open Scope Z_scope.

(** ** Machine integers *)

Definition uint8 (x : Z) : Z := x mod 2 ^ 8.
Definition uint16 (x : Z) : Z := x mod 2 ^ 16.
Definition uint32 (x : Z) : Z := x mod 2 ^ 32.
Definition uint64 (x : Z) : Z := x mod 2 ^ 64.
Definition int32 (x : Z) : Z := (x + 2 ^ 31) mod 2 ^ 32 - 2 ^ 31.

Definition MaxUint8 : Z := 2 ^ 8 - 1.
Definition MaxUint16 : Z := 2 ^ 16 - 1.
Definition MaxUint32 : Z := 2 ^ 32 - 1.
Definition MaxUint64 : Z := 2 ^ 64 - 1.

(** Membership in a Go integer type. *)
Definition is_uint16 (x : Z) : Prop := 0 <= x <= MaxUint16.
Definition is_uint32 (x : Z) : Prop := 0 <= x <= MaxUint32.
Definition is_uint64 (x : Z) : Prop := 0 <= x <= MaxUint64.
Definition is_rune (x : Z) : Prop := - 2 ^ 31 <= x < 2 ^ 31.

Definition byte : Type := Z.

(** ** Errors, panics and results *)

(** One constructor per error value built in engine.go, carrying the values
    that the message is formatted with. *)
Inductive error : Type :=
| ErrMinBiggerThanMax (minValue maxValue : Z)
| ErrInitValue (initValue minValue maxValue : Z)
| ErrInvalidSize (size : Z)
| ErrMaxNotRepresentable (maxValue size : Z)
| ErrUnsupportedOperation (op : string)
| ErrUnrecognizedOperation
| ErrShortSlice (want have : Z)
| ErrSizeShouldBe
| ErrShortNewValue (want have : Z)
| ErrCopiedAmount (want have : Z)
| ErrMaxSmallerThanMin (max min : Z)
| ErrEmptyUInt32List
| ErrEmptyRuneList.

(** The run-time panics that the code of engine.go can raise. *)
Inductive panic : Type :=
| PanicDivideByZero
| PanicIndexOutOfRange
| PanicMakeSliceLen
| PanicIntnArgument.

Inductive result (A : Type) : Type :=
| Ok (a : A)
| Err (e : error)
| Panic (p : panic).

Arguments Ok {A} a.
Arguments Err {A} e.
Arguments Panic {A} p.

Definition bind {A B : Type} (r : result A) (k : A -> result B) : result B :=
  match r with
  | Ok a => k a
  | Err e => Err e
  | Panic p => Panic p
  end.

Notation "x <- r ;; k" := (bind r (fun x => k))
  (at level 100, r at next level, right associativity).

(** ** Slices *)

(** [b[i] = x]: panics when [i] is not an index of [b]. *)
Definition store (b : list byte) (i : nat) (x : byte) : result (list byte) :=
  if (i <? length b)%nat then Ok (<[i := x]> b) else Panic PanicIndexOutOfRange.

(** [make([]byte, n)]: panics on a negative length. *)
Definition make (n : Z) : result (list byte) :=
  if n <? 0 then Panic PanicMakeSliceLen else Ok (replicate (Z.to_nat n) 0).

(** [copy(dst, src)]: copies [min(len(dst), len(src))] elements and returns
    that number with the updated destination. *)
Definition copy (dst src : list byte) : list byte * Z :=
  let n := Nat.min (length dst) (length src) in
  (take n src ++ drop n dst, Z.of_nat n).

(** ** encoding/binary, big endian *)

Definition PutUint16 (b : list byte) (v : Z) : result (list byte) :=
  if (length b <=? 1)%nat then Panic PanicIndexOutOfRange else
  b <- store b 0 (uint8 (Z.shiftr v 8)) ;;
  store b 1 (uint8 v).

Definition PutUint32 (b : list byte) (v : Z) : result (list byte) :=
  if (length b <=? 3)%nat then Panic PanicIndexOutOfRange else
  b <- store b 0 (uint8 (Z.shiftr v 24)) ;;
  b <- store b 1 (uint8 (Z.shiftr v 16)) ;;
  b <- store b 2 (uint8 (Z.shiftr v 8)) ;;
  store b 3 (uint8 v).

Definition PutUint64 (b : list byte) (v : Z) : result (list byte) :=
  if (length b <=? 7)%nat then Panic PanicIndexOutOfRange else
  b <- store b 0 (uint8 (Z.shiftr v 56)) ;;
  b <- store b 1 (uint8 (Z.shiftr v 48)) ;;
  b <- store b 2 (uint8 (Z.shiftr v 40)) ;;
  b <- store b 3 (uint8 (Z.shiftr v 32)) ;;
  b <- store b 4 (uint8 (Z.shiftr v 24)) ;;
  b <- store b 5 (uint8 (Z.shiftr v 16)) ;;
  b <- store b 6 (uint8 (Z.shiftr v 8)) ;;
  store b 7 (uint8 v).

(** The unsigned integer that a byte sequence holds in big-endian order. *)
Definition be_decode (bs : list byte) : Z :=
  fold_left (fun acc x => acc * 256 + x) bs 0.

(** ** UIntEngine *)

Record UIntEngineParams : Type := mkUIntEngineParams {
  size : Z;        (* uint16: size of the variable in bytes *)
  offset : Z;      (* uint16: offset in the packet *)
  op : string;     (* one of inc, dec, rand *)
  step : Z;        (* uint64 *)
  minValue : Z;    (* uint64 *)
  maxValue : Z;    (* uint64 *)
  initValue : Z    (* uint64 *)
}.

Record UIntEngine : Type := mkUIntEngine {
  par : UIntEngineParams;
  currValue : Z;   (* uint64 *)
  domainLen : Z    (* uint64 *)
}.

Definition set_step (p : UIntEngineParams) (s : Z) : UIntEngineParams :=
  mkUIntEngineParams (size p) (offset p) (op p) s (minValue p) (maxValue p)
    (initValue p).

Definition set_currValue (o : UIntEngine) (v : Z) : UIntEngine :=
  mkUIntEngine (par o) v (domainLen o).

Definition maxUInt64 (a b : Z) : Z := if a >=? b then a else b.

Fixpoint findValue_from (i : Z) (arr : list Z) (val : Z) : Z * bool :=
  match arr with
  | [] => (-1, false)
  | item :: rest =>
      if item =? val then (i, true) else findValue_from (i + 1) rest val
  end.

Definition findValue (arr : list Z) (val : Z) : Z * bool :=
  findValue_from 0 arr val.

(** [validateParams]: every check runs, a later failing check overwrites the
    error of an earlier one, and the last error set is returned. *)
Definition validateParams (params : UIntEngineParams) : result unit :=
  let err : option error := None in
  let err :=
    if minValue params >? maxValue params
    then Some (ErrMinBiggerThanMax (minValue params) (maxValue params))
    else err in
  let err :=
    if negb (initValue params =? 0)
       && ((initValue params <? minValue params)
           || (initValue params >? maxValue params))
    then Some (ErrInitValue (initValue params) (minValue params)
                 (maxValue params))
    else err in
  let sizes := [1; 2; 4; 8] in
  let maxPossible := [MaxUint8; MaxUint16; MaxUint32; MaxUint64] in
  let '(i, ok) := findValue sizes (size params) in
  err <- (if negb ok then Ok (Some (ErrInvalidSize (size params)))
          else match maxPossible !! Z.to_nat i with
               | None => Panic PanicIndexOutOfRange
               | Some m =>
                   if maxValue params >? m
                   then Ok (Some (ErrMaxNotRepresentable (maxValue params)
                                    (size params)))
                   else Ok err
               end) ;;
  let err :=
    if negb (op params =? "inc")%string
       && negb (op params =? "dec")%string
       && negb (op params =? "rand")%string
    then Some (ErrUnsupportedOperation (op params))
    else err in
  match err with
  | None => Ok tt
  | Some e => Err e
  end.

(** Unsigned remainder; Go panics on a zero divisor. *)
Definition urem (a b : Z) : result Z :=
  if b =? 0 then Panic PanicDivideByZero else Ok (a mod b).

(** [NewUIntEngine]: the engine keeps the pointer to the caller's parameters
    and reduces the step in place, so the parameters of the engine are the
    caller's with the step replaced. *)
Definition NewUIntEngine (params : UIntEngineParams) : result UIntEngine :=
  _ <- validateParams params ;;
  let domainLen := uint64 (uint64 (maxValue params - minValue params) + 1) in
  let domainLen := if domainLen =? 0 then MaxUint64 else domainLen in
  params <- (if step params >? domainLen
             then s <- urem (step params) domainLen ;; Ok (set_step params s)
             else Ok params) ;;
  Ok (mkUIntEngine params
        (maxUInt64 (minValue params) (initValue params)) domainLen).

Definition IncValue (o : UIntEngine) : UIntEngine :=
  let left := uint64 (maxValue (par o) - currValue o) in
  if step (par o) <=? left
  then set_currValue o (uint64 (currValue o + step (par o)))
  else set_currValue o
         (uint64 (minValue (par o) + uint64 (uint64 (step (par o) - left) - 1))).

Definition DecValue (o : UIntEngine) : UIntEngine :=
  let left := uint64 (currValue o - minValue (par o)) in
  if step (par o) <=? left
  then set_currValue o (uint64 (currValue o - step (par o)))
  else set_currValue o
         (uint64 (maxValue (par o) - uint64 (uint64 (step (par o) - left) - 1))).

(** [genValue] is the number that [rand.Uint64()] returns. *)
Definition RandValue (o : UIntEngine) (genValue : Z) : result UIntEngine :=
  m <- urem genValue (domainLen o) ;;
  Ok (set_currValue o (uint64 (minValue (par o) + m))).

(** [PerformOp]: the engine after the operation, or the error of the default
    case, which leaves the engine as it is. *)
Definition PerformOp (o : UIntEngine) (genValue : Z) : result UIntEngine :=
  if (op (par o) =? "inc")%string then Ok (IncValue o)
  else if (op (par o) =? "dec")%string then Ok (DecValue o)
  else if (op (par o) =? "rand")%string then RandValue o genValue
  else Err ErrUnrecognizedOperation.

(** What a call of a method that mutates its receiver and the caller's slice
    leaves behind: the returned error (or panic), the slice and the engine. *)
Record outcome (E : Type) : Type := mkOutcome {
  ret : result unit;
  buf : list byte;
  eng : E
}.

Arguments mkOutcome {E} ret buf eng.
Arguments ret {E} o.
Arguments buf {E} o.
Arguments eng {E} o.

(** [Update]: the length check, the write of the current value by the
    [switch] on the size, then the operation; [genValue] is the draw that the
    operation consumes when it is rand. *)
Definition Update (o : UIntEngine) (b : list byte) (genValue : Z)
  : outcome UIntEngine :=
  if Z.of_nat (length b) <? size (par o)
  then mkOutcome (Err (ErrShortSlice (size (par o)) (Z.of_nat (length b)))) b o
  else
    let written :=
      if size (par o) =? 1 then store b 0 (uint8 (currValue o))
      else if size (par o) =? 2 then PutUint16 b (uint16 (currValue o))
      else if size (par o) =? 4 then PutUint32 b (uint32 (currValue o))
      else if size (par o) =? 8 then PutUint64 b (currValue o)
      else Err ErrSizeShouldBe in
    match written with
    | Err e => mkOutcome (Err e) b o
    | Panic p => mkOutcome (Panic p) b o
    | Ok b' =>
        match PerformOp o genValue with
        | Err e => mkOutcome (Err e) b' o
        | Panic p => mkOutcome (Panic p) b' o
        | Ok o' => mkOutcome (Ok tt) b' o'
        end
    end.

Definition GetOffset (o : UIntEngine) : Z := offset (par o).
Definition GetSize (o : UIntEngine) : Z := size (par o).

(** A sequence of [Update] calls on one engine, each with its own slice and
    its own draw; the engine is carried from call to call whatever a call
    returns, as the receiver of the Go method is. *)
Fixpoint Updates (o : UIntEngine) (calls : list (list byte * Z))
  : UIntEngine :=
  match calls with
  | [] => o
  | (b, g) :: rest => Updates (eng (Update o b g)) rest
  end.

(** ** unicode/utf8 and math/rand, as engine.go uses them *)

Definition RuneError : Z := 0xFFFD.
Definition MaxRune : Z := 0x10FFFF.
Definition surrogateMin : Z := 0xD800.
Definition surrogateMax : Z := 0xDFFF.
Definition rune1Max : Z := 0x7F.
Definition rune2Max : Z := 0x7FF.
Definition rune3Max : Z := 0xFFFF.
Definition tx : Z := 0x80.
Definition t2 : Z := 0xC0.
Definition t3 : Z := 0xE0.
Definition t4 : Z := 0xF0.
Definition maskx : Z := 0x3F.

(** [utf8.RuneLen]: the number of bytes of the encoding, -1 when the rune is
    not a value that UTF-8 encodes. *)
Definition RuneLen (r : Z) : Z :=
  if r <? 0 then -1
  else if r <=? rune1Max then 1
  else if r <=? rune2Max then 2
  else if (surrogateMin <=? r) && (r <=? surrogateMax) then -1
  else if r <=? rune3Max then 3
  else if r <=? MaxRune then 4
  else -1.

Definition encode3 (p : list byte) (r : Z) : result (list byte) :=
  if (length p <=? 2)%nat then Panic PanicIndexOutOfRange else
  p <- store p 0 (Z.lor t3 (uint8 (Z.shiftr r 12))) ;;
  p <- store p 1 (Z.lor tx (Z.land (uint8 (Z.shiftr r 6)) maskx)) ;;
  store p 2 (Z.lor tx (Z.land (uint8 r) maskx)).

(** [utf8.EncodeRune]: writes the encoding of [r] at the start of [p]; a rune
    out of range or a surrogate half is written as [RuneError]. *)
Definition EncodeRune (p : list byte) (r : Z) : result (list byte) :=
  let i := uint32 r in
  if i <=? rune1Max then store p 0 (uint8 r)
  else if i <=? rune2Max then
    if (length p <=? 1)%nat then Panic PanicIndexOutOfRange else
    p <- store p 0 (Z.lor t2 (uint8 (Z.shiftr r 6))) ;;
    store p 1 (Z.lor tx (Z.land (uint8 r) maskx))
  else if (i >? MaxRune) || ((surrogateMin <=? i) && (i <=? surrogateMax))
  then encode3 p RuneError
  else if i <=? rune3Max then encode3 p r
  else
    if (length p <=? 3)%nat then Panic PanicIndexOutOfRange else
    p <- store p 0 (Z.lor t4 (uint8 (Z.shiftr r 18))) ;;
    p <- store p 1 (Z.lor tx (Z.land (uint8 (Z.shiftr r 12)) maskx)) ;;
    p <- store p 2 (Z.lor tx (Z.land (uint8 (Z.shiftr r 6)) maskx)) ;;
    store p 3 (Z.lor tx (Z.land (uint8 r) maskx)).

(** [rand.Intn(n)]: panics when [n <= 0]; otherwise returns the drawn number
    [g], which the generator takes in [0, n). *)
Definition Intn (n g : Z) : result Z :=
  if n <=? 0 then Panic PanicIntnArgument else Ok g.

(** [list[index]] on a slice of integers. *)
Definition index_list (l : list Z) (index : Z) : result Z :=
  if index <? 0 then Panic PanicIndexOutOfRange
  else match l !! Z.to_nat index with
       | Some x => Ok x
       | None => Panic PanicIndexOutOfRange
       end.

(** ** Histogram entries *)

(** The interface [HistogramEntry]. [GetValue] takes the number drawn by the
    one call to math/rand that the entry makes, if it makes one. *)
Class HistogramEntry (T : Type) : Type := {
  GetProb : T -> Z;
  GetValue : T -> Z -> result (list byte)
}.

(** A value of the interface type: a receiver with its method table. *)
Record entry : Type := Entry {
  entry_type : Type;
  entry_impl : HistogramEntry entry_type;
  entry_self : entry_type
}.

Arguments Entry {entry_type entry_impl} entry_self.

Definition entry_GetProb (e : entry) : Z :=
  @GetProb _ (entry_impl e) (entry_self e).

Definition entry_GetValue (e : entry) (g : Z) : result (list byte) :=
  @GetValue _ (entry_impl e) (entry_self e) g.

Module HistogramUInt32Entry.
Record t : Type := mk { v : Z; prob : Z }.

Definition GetValue (o : t) (g : Z) : result (list byte) :=
  b <- make 4 ;;
  b <- PutUint32 b (v o) ;;
  Ok b.

Definition GetProb (o : t) : Z := prob o.

#[global] Instance impl : HistogramEntry t :=
  Build_HistogramEntry t GetProb GetValue.
End HistogramUInt32Entry.

Module HistogramUInt32RangeEntry.
Record t : Type := mk { min : Z; max : Z; prob : Z }.

(** [g] is the number that [rand.Uint32()] returns. *)
Definition GetValue (o : t) (g : Z) : result (list byte) :=
  if max o <? min o then Err (ErrMaxSmallerThanMin (max o) (min o)) else
  b <- make 4 ;;
  let v := g in
  m <- urem v (uint32 (uint32 (max o - min o) + 1)) ;;
  let v := uint32 (min o + m) in
  b <- PutUint32 b v ;;
  Ok b.

Definition GetProb (o : t) : Z := prob o.

#[global] Instance impl : HistogramEntry t :=
  Build_HistogramEntry t GetProb GetValue.
End HistogramUInt32RangeEntry.

Module HistogramUInt32ListEntry.
Record t : Type := mk { list : Datatypes.list Z; prob : Z }.

(** [g] is the number that [rand.Intn] returns. *)
Definition GetValue (o : t) (g : Z) : result (Datatypes.list byte) :=
  if (length (list o) =? 0)%nat then Err ErrEmptyUInt32List else
  b <- make 4 ;;
  index <- Intn (Z.of_nat (length (list o))) g ;;
  x <- index_list (list o) index ;;
  b <- PutUint32 b x ;;
  Ok b.

Definition GetProb (o : t) : Z := prob o.

#[global] Instance impl : HistogramEntry t :=
  Build_HistogramEntry t GetProb GetValue.
End HistogramUInt32ListEntry.

Module HistogramRuneEntry.
Record t : Type := mk { r : Z; prob : Z }.

Definition GetValue (o : t) (g : Z) : result (list byte) :=
  b <- make (RuneLen (r o)) ;;
  b <- EncodeRune b (r o) ;;
  Ok b.

Definition GetProb (o : t) : Z := prob o.

#[global] Instance impl : HistogramEntry t :=
  Build_HistogramEntry t GetProb GetValue.
End HistogramRuneEntry.

Module HistogramRuneRangeEntry.
Record t : Type := mk { min : Z; max : Z; prob : Z }.

(** [g] is the number that [rand.Intn] returns. *)
Definition GetValue (o : t) (g : Z) : result (list byte) :=
  if max o <? min o then Err (ErrMaxSmallerThanMin (max o) (min o)) else
  n <- Intn (int32 (int32 (max o - min o) + 1)) g ;;
  let r := int32 (min o + int32 n) in
  b <- make (RuneLen r) ;;
  b <- EncodeRune b r ;;
  Ok b.

Definition GetProb (o : t) : Z := prob o.

#[global] Instance impl : HistogramEntry t :=
  Build_HistogramEntry t GetProb GetValue.
End HistogramRuneRangeEntry.

Module HistogramRuneListEntry.
Record t : Type := mk { list : Datatypes.list Z; prob : Z }.

(** [g] is the number that [rand.Intn] returns. *)
Definition GetValue (o : t) (g : Z) : result (Datatypes.list byte) :=
  if (length (list o) =? 0)%nat then Err ErrEmptyRuneList else
  index <- Intn (Z.of_nat (length (list o))) g ;;
  r <- index_list (list o) index ;;
  b <- make (RuneLen r) ;;
  b <- EncodeRune b r ;;
  Ok b.

Definition GetProb (o : t) : Z := prob o.

#[global] Instance impl : HistogramEntry t :=
  Build_HistogramEntry t GetProb GetValue.
End HistogramRuneListEntry.

(** ** HistogramEngine *)

Module HistogramEngine.
Section Engine.
(** The non-uniform random generator lives in another file of the package;
    the engine only stores it and asks it for an index, so its type is a
    parameter and the index that [Generate] returns is an input of
    [Update]. *)
Variable NonUniformRandGen : Type.

Record HistogramEngineParams : Type := mkParams {
  size : Z;              (* uint16 *)
  offset : Z;            (* uint16 *)
  entries : list entry
}.

Record t : Type := mk {
  par : HistogramEngineParams;
  distributions : list Z;
  generator : NonUniformRandGen
}.

Definition buildDistributionSlice (o : t) (entries : list entry) : t :=
  mk (par o) (distributions o ++ map entry_GetProb entries) (generator o).

(** [Update]: [entryIndex] is the index that [o.generator.Generate()]
    returns and [g] the draw that the entry consumes. *)
Definition Update (o : t) (b : list byte) (entryIndex g : Z) : outcome t :=
  if Z.of_nat (length b) <? size (par o)
  then mkOutcome (Err (ErrShortSlice (size (par o)) (Z.of_nat (length b))))
         b o
  else
    if entryIndex <? 0 then mkOutcome (Panic PanicIndexOutOfRange) b o else
    match entries (par o) !! Z.to_nat entryIndex with
    | None => mkOutcome (Panic PanicIndexOutOfRange) b o
    | Some entry =>
        match entry_GetValue entry g with
        | Err e => mkOutcome (Err e) b o
        | Panic p => mkOutcome (Panic p) b o
        | Ok newValueBytes =>
            if Z.of_nat (length newValueBytes) <? size (par o)
            then mkOutcome
                   (Err (ErrShortNewValue (size (par o))
                           (Z.of_nat (length newValueBytes)))) b o
            else
              let n := Z.to_nat (size (par o)) in
              let '(dst, copiedSize) :=
                copy (take n b) (take n newValueBytes) in
              let b' := dst ++ drop n b in
              if negb (copiedSize =? size (par o))
              then mkOutcome
                     (Err (ErrCopiedAmount (size (par o)) copiedSize)) b' o
              else mkOutcome (Ok tt) b' o
        end
    end.

Definition GetOffset (o : t) : Z := offset (par o).
Definition GetSize (o : t) : Z := size (par o).
End Engine.

Arguments mk {NonUniformRandGen} par distributions generator.
Arguments par {NonUniformRandGen}.
Arguments distributions {NonUniformRandGen}.
Arguments generator {NonUniformRandGen}.
Arguments buildDistributionSlice {NonUniformRandGen} o entries.
Arguments Update {NonUniformRandGen} o b entryIndex g.
Arguments GetOffset {NonUniformRandGen} o.
Arguments GetSize {NonUniformRandGen} o.
End HistogramEngine.

(** * Vocabulary of the statements *)

(** The conditions that the parameters of an integer engine have to meet. *)
Definition valid_config (p : UIntEngineParams) : Prop :=
  minValue p <= maxValue p
  /\ In (size p) [1; 2; 4; 8]
  /\ maxValue p <= 2 ^ (8 * size p) - 1
  /\ In (op p) ["inc"; "dec"; "rand"]%string
  /\ (initValue p <> 0 -> minValue p <= initValue p <= maxValue p).

(** The types of the fields of [UIntEngineParams]. *)
Definition params_wf (p : UIntEngineParams) : Prop :=
  is_uint16 (size p) /\ is_uint16 (offset p) /\ is_uint64 (step p)
  /\ is_uint64 (minValue p) /\ is_uint64 (maxValue p)
  /\ is_uint64 (initValue p).

(** The domain length that [NewUIntEngine] stores for a domain. *)
Definition domainLen_of (minV maxV : Z) : Z :=
  let d := uint64 (uint64 (maxV - minV) + 1) in
  if d =? 0 then MaxUint64 else d.

(** The invariant of an engine: the bounds are of type uint64, the current
    value lies in the domain, the domain length is the one that construction
    stores, and the step does not exceed it. *)
Definition engine_inv (o : UIntEngine) : Prop :=
  0 <= minValue (par o)
  /\ minValue (par o) <= currValue o <= maxValue (par o)
  /\ maxValue (par o) <= MaxUint64
  /\ domainLen o = domainLen_of (minValue (par o)) (maxValue (par o))
  /\ 0 <= step (par o) <= domainLen o.

(** The errors that [validateParams] builds. *)
Definition config_error (e : error) : Prop :=
  match e with
  | ErrMinBiggerThanMax _ _ | ErrInitValue _ _ _ | ErrInvalidSize _
  | ErrMaxNotRepresentable _ _ | ErrUnsupportedOperation _ => True
  | _ => False
  end.

(** What a sequence of [Update] calls returns and leaves in the slices. *)
Fixpoint Updates_trace (o : UIntEngine) (calls : list (list byte * Z))
  : list (result unit * list byte) :=
  match calls with
  | [] => []
  | (b, g) :: rest =>
      let r := Update o b g in
      (ret r, buf r) :: Updates_trace (eng r) rest
  end.

(** The [n] bytes of [v] in big-endian order, most significant first. *)
Fixpoint be_encode (n : nat) (v : Z) : list byte :=
  match n with
  | O => []
  | S k => uint8 (Z.shiftr v (8 * Z.of_nat k)) :: be_encode k v
  end.

(** ** Engines used as examples *)

(** Two bytes wide, counting up by one over [0, 3]. *)
Definition cycle_params : UIntEngineParams :=
  mkUIntEngineParams 2 0 "inc" 1 0 3 0.

Definition cycle_engine : UIntEngine := mkUIntEngine cycle_params 0 4.

(** Eight bytes wide over the whole of uint64, counting up by one from the
    largest value. *)
Definition full_inc_params : UIntEngineParams :=
  mkUIntEngineParams 8 0 "inc" 1 0 MaxUint64 MaxUint64.

Definition full_inc_engine : UIntEngine :=
  mkUIntEngine full_inc_params MaxUint64 MaxUint64.

(** Eight bytes wide over the whole of uint64, drawing at random. *)
Definition full_rand_params : UIntEngineParams :=
  mkUIntEngineParams 8 0 "rand" 0 0 MaxUint64 0.

Definition full_rand_engine : UIntEngine :=
  mkUIntEngine full_rand_params 0 MaxUint64.

(** One byte wide, drawing at random over [10, 12]. *)
Definition small_rand_params : UIntEngineParams :=
  mkUIntEngineParams 1 0 "rand" 0 10 12 0.

Definition small_rand_engine : UIntEngine :=
  mkUIntEngine small_rand_params 10 3.

(** ** Histogram entries and engines used as examples *)

(** A range whose bounds are reversed. *)
Definition reversed_range_entry : HistogramUInt32RangeEntry.t :=
  HistogramUInt32RangeEntry.mk 5 1 1.

(** The range that is the whole of uint32. *)
Definition full_range_entry : HistogramUInt32RangeEntry.t :=
  HistogramUInt32RangeEntry.mk 0 MaxUint32 1.

(** A rune that is a surrogate half, which UTF-8 does not encode. *)
Definition surrogate_entry : HistogramRuneEntry.t :=
  HistogramRuneEntry.mk 0xD800 1.

(** A histogram of four bytes whose only entry is the reversed range; the
    generator plays no part and is the unit value. *)
Definition reversed_range_histogram : HistogramEngine.t unit :=
  HistogramEngine.mk
    (HistogramEngine.mkParams 4 0 [Entry reversed_range_entry]) [1] tt.

(** ** Further examples and vocabulary *)

(** An engine state that construction never builds: its operation is none
    of inc, dec and rand. *)
Definition bogus_op_engine : UIntEngine :=
  mkUIntEngine (mkUIntEngineParams 1 0 "bogus" 1 0 9 0) 7 10.

(** Which error [validateParams] reports: that of the last check that
    fails, the checks being made in the order bounds, initial value, size
    and width, operation. *)
Definition reported_error (p : UIntEngineParams) : option error :=
  if negb (existsb (String.eqb (op p)) ["inc"; "dec"; "rand"]%string)
  then Some (ErrUnsupportedOperation (op p))
  else if negb (existsb (Z.eqb (size p)) [1; 2; 4; 8])
  then Some (ErrInvalidSize (size p))
  else if 2 ^ (8 * size p) - 1 <? maxValue p
  then Some (ErrMaxNotRepresentable (maxValue p) (size p))
  else if negb (initValue p =? 0)
          && ((initValue p <? minValue p) || (maxValue p <? initValue p))
  then Some (ErrInitValue (initValue p) (minValue p) (maxValue p))
  else if maxValue p <? minValue p
  then Some (ErrMinBiggerThanMax (minValue p) (maxValue p))
  else None.

(** A fixed entry and a histogram of two bytes over it. *)
Definition fixed_entry : HistogramUInt32Entry.t :=
  HistogramUInt32Entry.mk 0x01020304 1.

Definition fixed_histogram : HistogramEngine.t unit :=
  HistogramEngine.mk (HistogramEngine.mkParams 2 0 [Entry fixed_entry]) [1] tt.

(** A histogram of eight bytes over the fixed entry, which produces four. *)
Definition wide_histogram : HistogramEngine.t unit :=
  HistogramEngine.mk (HistogramEngine.mkParams 8 0 [Entry fixed_entry]) [1] tt.

Definition small_range_entry : HistogramUInt32RangeEntry.t :=
  HistogramUInt32RangeEntry.mk 10 20 1.

Definition euro_entry : HistogramRuneEntry.t := HistogramRuneEntry.mk 0x20AC 1.

(** The runes that UTF-8 encodes. *)
Definition encodable (r : Z) : Prop :=
  0 <= r <= MaxRune /\ ~ (surrogateMin <= r <= surrogateMax).

(** ** The method repository (external/osamingo/jsonrpc/method.go)

    The repository maps method names to handlers. Of the types that the
    package declares in other files, [Request] is taken with the two fields
    that this file reads, the interface [Handler] is a type parameter whose
    nil value is [None], the package constant [Version] is a parameter, and
    [Error] has the two values that [ErrInvalidParams()] and
    [ErrMethodNotFound()] build. *)
Module jsonrpc.

Inductive Error : Type :=
| ErrInvalidParams
| ErrMethodNotFound.

Record Request : Type := mkRequest {
  Version : string;
  Method : string
}.

Section Repository.
Context {HandlerIF Ctx : Type}.

Record Metadata : Type := mkMetadata {
  Handler : option HandlerIF;
  NoApi : bool
}.

Record MethodRepository : Type := mkMethodRepository {
  r : gmap string Metadata;
  Verbose : bool;
  api : string;
  ctx : option Ctx
}.

Definition NewMethodRepository : MethodRepository :=
  mkMethodRepository ∅ false "" None.

Definition SetCtx (mr : MethodRepository) (i : option Ctx)
  : MethodRepository :=
  mkMethodRepository (r mr) (Verbose mr) (api mr) i.

(** [TakeMethod]: the handler, the error and the flag that it returns;
    [version] is the package constant [Version]. *)
Definition TakeMethod (version : string) (mr : MethodRepository)
  (req : Request) : option HandlerIF * option Error * bool :=
  if (Method req =? "")%string || negb (Version req =? version)%string
  then (None, Some ErrInvalidParams, false)
  else match r mr !! Method req with
       | None => (None, Some ErrMethodNotFound, false)
       | Some md => (Handler md, None, NoApi md)
       end.

Definition SetAPI (mr : MethodRepository) (a : string) : MethodRepository :=
  mkMethodRepository (r mr) (Verbose mr) a (ctx mr).

Definition GetAPI (mr : MethodRepository) : string := api mr.

(** [RegisterMethod]: the error that it returns, as the message that
    [errors.New] is given, and the repository that it leaves. *)
Definition RegisterMethod (mr : MethodRepository) (method : string)
  (h : option HandlerIF) (noApi : bool)
  : option string * MethodRepository :=
  if (method =? "")%string
     || match h with None => true | Some _ => false end
  then (Some "jsonrpc: method name and function should not be empty"%string,
        mr)
  else (None,
        mkMethodRepository (<[method := mkMetadata h noApi]> (r mr))
          (Verbose mr) (api mr) (ctx mr)).

(** [Methods]: a new map that receives every entry of the repository, one
    by one. *)
Definition Methods (mr : MethodRepository) : gmap string Metadata :=
  map_fold (fun k md ml => <[k := md]> ml) ∅ (r mr).

(** A sequence of [RegisterMethod] calls, whatever each returns. *)
Fixpoint RegisterMethods (mr : MethodRepository)
  (calls : list (string * option HandlerIF * bool)) : MethodRepository :=
  match calls with
  | [] => mr
  | (method, h, noApi) :: rest =>
      RegisterMethods (snd (RegisterMethod mr method h noApi)) rest
  end.
End Repository.

Arguments Metadata : clear implicits.
Arguments MethodRepository : clear implicits.
End jsonrpc.

(** * Properties *)

(** ** Machine arithmetic *)

Lemma uint64_small (x : Z) : 0 <= x <= MaxUint64 -> uint64 x = x.
Proof. unfold uint64, MaxUint64. intros H. apply Z.mod_small. lia. Qed.

Lemma uint64_range (x : Z) : 0 <= uint64 x <= MaxUint64.
Proof.
  unfold uint64, MaxUint64.
  pose proof (Z.mod_pos_bound x (2 ^ 64) ltac:(lia)). lia.
Qed.

Lemma urem_Ok (a b : Z) : b <> 0 -> urem a b = Ok (a mod b).
Proof. unfold urem. intros H. destruct (Z.eqb_spec b 0); [contradiction | reflexivity]. Qed.

(** ** Validation of the parameters *)


Ltac split_cmp :=
  repeat match goal with
    | |- context [?a >? ?b] => rewrite (Z.gtb_ltb a b)
    | |- context [?a <? ?b] => destruct (Z.ltb_spec a b)
    | |- context [?a =? ?b] => destruct (Z.eqb_spec a b)
    | |- context [String.eqb ?a ?b] => destruct (String.eqb_spec a b)
    end.

Lemma validateParams_Ok (p : UIntEngineParams) :
  validateParams p = Ok tt <-> valid_config p.
Proof.
  unfold validateParams, valid_config, findValue, findValue_from.
  unfold MaxUint8, MaxUint16, MaxUint32, MaxUint64.
  destruct p as [sz off o st mn mx ini];
    cbn [size offset op step minValue maxValue initValue].
  destruct (Z.eqb_spec 1 sz);
    [| destruct (Z.eqb_spec 2 sz);
       [| destruct (Z.eqb_spec 4 sz); [| destruct (Z.eqb_spec 8 sz)]]];
    subst; simpl; split_cmp; subst; simpl; (split; intros Hv);
    first [ discriminate Hv
          | reflexivity
          | intuition (first [lia | congruence]) ].
Qed.

Lemma validateParams_no_panic (p : UIntEngineParams) (q : panic) :
  validateParams p <> Panic q.
Proof.
  unfold validateParams, findValue, findValue_from.
  destruct p as [sz off o st mn mx ini];
    cbn [size offset op step minValue maxValue initValue].
  destruct (Z.eqb_spec 1 sz);
    [| destruct (Z.eqb_spec 2 sz);
       [| destruct (Z.eqb_spec 4 sz); [| destruct (Z.eqb_spec 8 sz)]]];
    subst; simpl;
    repeat match goal with
      | |- context [if ?c then _ else _] => destruct c; simpl
      end; discriminate.
Qed.

Lemma validateParams_Err (p : UIntEngineParams) :
  (exists e, validateParams p = Err e) <-> ~ valid_config p.
Proof.
  rewrite <- validateParams_Ok.
  destruct (validateParams p) as [[] | e | q] eqn:Hr.
  - split; [intros [e He]; discriminate | intros Hn; exfalso; auto].
  - split; [intros _ Hn; discriminate | eauto].
  - exfalso. exact (validateParams_no_panic p q Hr).
Qed.

Lemma domainLen_of_pos (minV maxV : Z) : 1 <= domainLen_of minV maxV <= MaxUint64.
Proof.
  unfold domainLen_of.
  pose proof (uint64_range (uint64 (maxV - minV) + 1)) as Hr.
  destruct (Z.eqb_spec (uint64 (uint64 (maxV - minV) + 1)) 0);
    unfold MaxUint64 in *; lia.
Qed.

Lemma domainLen_of_exact (minV maxV : Z) :
  0 <= minV -> minV <= maxV -> maxV <= MaxUint64 ->
  domainLen_of minV maxV =
    if (minV =? 0) && (maxV =? MaxUint64) then MaxUint64 else maxV - minV + 1.
Proof.
  intros H0 Hle Hmax. unfold domainLen_of.
  rewrite (uint64_small (maxV - minV)) by lia.
  destruct (Z.eqb_spec minV 0) as [-> | Hm];
    destruct (Z.eqb_spec maxV MaxUint64) as [-> | Hx]; cbn [andb].
  - reflexivity.
  - rewrite uint64_small by lia.
    destruct (Z.eqb_spec (maxV - 0 + 1) 0); lia.
  - rewrite uint64_small by lia.
    destruct (Z.eqb_spec (MaxUint64 - minV + 1) 0); lia.
  - rewrite uint64_small by lia.
    destruct (Z.eqb_spec (maxV - minV + 1) 0); lia.
Qed.

(** What [NewUIntEngine] returns once validation has passed. *)
Lemma NewUIntEngine_Ok (p : UIntEngineParams) :
  validateParams p = Ok tt ->
  let d := domainLen_of (minValue p) (maxValue p) in
  NewUIntEngine p =
    Ok (mkUIntEngine
          (if step p >? d then set_step p (step p mod d) else p)
          (maxUInt64 (minValue p) (initValue p)) d).
Proof.
  intros Hv d. unfold NewUIntEngine. rewrite Hv. cbn [bind].
  fold (domainLen_of (minValue p) (maxValue p)). fold d.
  pose proof (domainLen_of_pos (minValue p) (maxValue p)) as Hd. fold d in Hd.
  destruct (step p >? d); cbn [bind]; [| reflexivity].
  rewrite urem_Ok by lia. reflexivity.
Qed.

Lemma domainLen_of_le (minV maxV : Z) :
  0 <= minV -> minV <= maxV -> maxV <= MaxUint64 ->
  1 <= domainLen_of minV maxV <= maxV - minV + 1.
Proof.
  intros H0 Hle Hmax. rewrite domainLen_of_exact by assumption.
  destruct (Z.eqb_spec minV 0); destruct (Z.eqb_spec maxV MaxUint64);
    cbn [andb]; unfold MaxUint64 in *; lia.
Qed.

Lemma NewUIntEngine_validated (p : UIntEngineParams) (o : UIntEngine) :
  NewUIntEngine p = Ok o -> validateParams p = Ok tt.
Proof.
  unfold NewUIntEngine. destruct (validateParams p) as [[] | e | q]; cbn [bind];
    [reflexivity | discriminate | discriminate].
Qed.

(** Construction establishes the invariant and keeps every parameter but the
    step. *)
Lemma NewUIntEngine_inv (p : UIntEngineParams) (o : UIntEngine) :
  params_wf p -> NewUIntEngine p = Ok o ->
  engine_inv o
  /\ minValue (par o) = minValue p /\ maxValue (par o) = maxValue p
  /\ size (par o) = size p /\ op (par o) = op p.
Proof.
  intros (_ & _ & Hst & Hmin & Hmax & Hini) Hnew.
  pose proof (NewUIntEngine_validated p o Hnew) as Hv.
  rewrite (NewUIntEngine_Ok p Hv) in Hnew. cbv zeta in Hnew.
  apply validateParams_Ok in Hv. destruct Hv as (Hle & _ & _ & _ & Hin).
  unfold is_uint64 in *.
  pose proof (domainLen_of_le (minValue p) (maxValue p)
                ltac:(lia) Hle ltac:(lia)) as Hd.
  injection Hnew as <-.
  unfold engine_inv. cbn [par currValue domainLen].
  set (d := domainLen_of (minValue p) (maxValue p)) in *.
  assert (Hcur : minValue p <= maxUInt64 (minValue p) (initValue p) <= maxValue p).
  { unfold maxUInt64. destruct (Z.geb_spec (minValue p) (initValue p)); lia. }
  rewrite Z.gtb_ltb. destruct (Z.ltb_spec d (step p)).
  - cbn [set_step minValue maxValue size op step].
    pose proof (Z.mod_pos_bound (step p) d ltac:(lia)). fold d.
    repeat split; try lia; reflexivity.
  - fold d. repeat split; try lia; reflexivity.
Qed.

(** ** The three operations *)

Lemma engine_inv_domain (o : UIntEngine) :
  engine_inv o ->
  1 <= domainLen o <= maxValue (par o) - minValue (par o) + 1
  /\ domainLen o <= MaxUint64.
Proof.
  intros (H0 & Hc & Hm & Hd & _). rewrite Hd. split.
  - apply domainLen_of_le; lia.
  - apply domainLen_of_pos.
Qed.

(** [IncValue] without the wrap-around of the machine: under the invariant no
    operation of its body leaves the range of uint64. *)
Lemma IncValue_exact (o : UIntEngine) :
  engine_inv o ->
  IncValue o =
    set_currValue o
      (if step (par o) <=? maxValue (par o) - currValue o
       then currValue o + step (par o)
       else minValue (par o)
            + (step (par o) - (maxValue (par o) - currValue o) - 1)).
Proof.
  intros Hinv. pose proof (engine_inv_domain o Hinv) as Hd.
  destruct Hinv as (H0 & Hc & Hm & _ & Hs).
  unfold IncValue. cbv zeta.
  rewrite (uint64_small (maxValue (par o) - currValue o)) by lia.
  destruct (Z.leb_spec (step (par o)) (maxValue (par o) - currValue o)).
  - rewrite uint64_small by lia. reflexivity.
  - rewrite (uint64_small (step (par o) - _)) by lia.
    rewrite (uint64_small (step (par o) - _ - 1)) by lia.
    rewrite uint64_small by lia. reflexivity.
Qed.

Lemma DecValue_exact (o : UIntEngine) :
  engine_inv o ->
  DecValue o =
    set_currValue o
      (if step (par o) <=? currValue o - minValue (par o)
       then currValue o - step (par o)
       else maxValue (par o)
            - (step (par o) - (currValue o - minValue (par o)) - 1)).
Proof.
  intros Hinv. pose proof (engine_inv_domain o Hinv) as Hd.
  destruct Hinv as (H0 & Hc & Hm & _ & Hs).
  unfold DecValue. cbv zeta.
  rewrite (uint64_small (currValue o - minValue (par o))) by lia.
  destruct (Z.leb_spec (step (par o)) (currValue o - minValue (par o))).
  - rewrite uint64_small by lia. reflexivity.
  - rewrite (uint64_small (step (par o) - _)) by lia.
    rewrite (uint64_small (step (par o) - _ - 1)) by lia.
    rewrite uint64_small by lia. reflexivity.
Qed.

Lemma RandValue_exact (o : UIntEngine) (g : Z) :
  engine_inv o ->
  RandValue o g =
    Ok (set_currValue o (minValue (par o) + g mod domainLen o)).
Proof.
  intros Hinv. pose proof (engine_inv_domain o Hinv) as Hd.
  destruct Hinv as (H0 & Hc & Hm & _ & Hs).
  unfold RandValue. rewrite urem_Ok by lia. cbn [bind].
  pose proof (Z.mod_pos_bound g (domainLen o) ltac:(lia)).
  rewrite uint64_small by lia. reflexivity.
Qed.

(** Replacing the current value by one of the domain keeps the invariant. *)
Lemma set_currValue_inv (o : UIntEngine) (v : Z) :
  engine_inv o -> minValue (par o) <= v <= maxValue (par o) ->
  engine_inv (set_currValue o v).
Proof.
  intros (H0 & Hc & Hm & Hd & Hs) Hv. unfold engine_inv, set_currValue.
  cbn [par currValue domainLen]. repeat split; solve [lia | assumption].
Qed.

Lemma IncValue_inv (o : UIntEngine) : engine_inv o -> engine_inv (IncValue o).
Proof.
  intros Hinv. rewrite IncValue_exact by assumption.
  apply set_currValue_inv; [assumption |].
  pose proof (engine_inv_domain o Hinv) as Hd.
  destruct Hinv as (H0 & Hc & Hm & _ & Hs).
  destruct (Z.leb_spec (step (par o)) (maxValue (par o) - currValue o)); lia.
Qed.

Lemma DecValue_inv (o : UIntEngine) : engine_inv o -> engine_inv (DecValue o).
Proof.
  intros Hinv. rewrite DecValue_exact by assumption.
  apply set_currValue_inv; [assumption |].
  pose proof (engine_inv_domain o Hinv) as Hd.
  destruct Hinv as (H0 & Hc & Hm & _ & Hs).
  destruct (Z.leb_spec (step (par o)) (currValue o - minValue (par o))); lia.
Qed.

Lemma RandValue_inv (o o' : UIntEngine) (g : Z) :
  engine_inv o -> RandValue o g = Ok o' -> engine_inv o'.
Proof.
  intros Hinv Hr. rewrite RandValue_exact in Hr by assumption.
  injection Hr as <-. apply set_currValue_inv; [assumption |].
  pose proof (engine_inv_domain o Hinv) as Hd.
  pose proof (Z.mod_pos_bound g (domainLen o) ltac:(lia)). lia.
Qed.

Lemma PerformOp_inv (o o' : UIntEngine) (g : Z) :
  engine_inv o -> PerformOp o g = Ok o' -> engine_inv o'.
Proof.
  unfold PerformOp. intros Hinv Hp.
  destruct (op (par o) =? "inc")%string.
  { injection Hp as <-. now apply IncValue_inv. }
  destruct (op (par o) =? "dec")%string.
  { injection Hp as <-. now apply DecValue_inv. }
  destruct (op (par o) =? "rand")%string; [| discriminate].
  eapply RandValue_inv; eassumption.
Qed.

Lemma PerformOp_par (o o' : UIntEngine) (g : Z) :
  PerformOp o g = Ok o' -> par o' = par o.
Proof.
  unfold PerformOp, RandValue, IncValue, DecValue. intros Hp.
  repeat match type of Hp with
    | context [if ?c then _ else _] => destruct c
    end; try discriminate;
    try (injection Hp as <-; reflexivity).
  destruct (urem g (domainLen o)); cbn [bind] in Hp; try discriminate.
  injection Hp as <-. reflexivity.
Qed.

(** ** Update of the integer engine *)

(** The engine that [Update] leaves is the one it found or the result of the
    configured operation. *)
Lemma Update_eng (o : UIntEngine) (b : list byte) (g : Z) :
  eng (Update o b g) = o
  \/ PerformOp o g = Ok (eng (Update o b g)).
Proof.
  unfold Update.
  destruct (Z.of_nat (length b) <? size (par o)); [left; reflexivity |].
  match goal with
  | |- context [match ?w with Ok _ => _ | Err _ => _ | Panic _ => _ end] =>
      destruct w as [b' | e | q]
  end; [| left; reflexivity | left; reflexivity].
  destruct (PerformOp o g) as [o' | e | q];
    [right; reflexivity | left; reflexivity | left; reflexivity].
Qed.

Lemma Update_inv (o : UIntEngine) (b : list byte) (g : Z) :
  engine_inv o -> engine_inv (eng (Update o b g)).
Proof.
  intros Hinv. destruct (Update_eng o b g) as [-> | Hp]; [assumption |].
  eapply PerformOp_inv; eassumption.
Qed.

Lemma Update_par (o : UIntEngine) (b : list byte) (g : Z) :
  par (eng (Update o b g)) = par o.
Proof.
  destruct (Update_eng o b g) as [-> | Hp]; [reflexivity |].
  eapply PerformOp_par; eassumption.
Qed.

Lemma Updates_inv (calls : list (list byte * Z)) :
  forall o : UIntEngine,
    engine_inv o ->
    engine_inv (Updates o calls) /\ par (Updates o calls) = par o.
Proof.
  induction calls as [| [b g] rest IH]; intros o Hinv; cbn [Updates].
  - split; [assumption | reflexivity].
  - destruct (IH (eng (Update o b g)) (Update_inv o b g Hinv)) as [Hi Hp].
    split; [assumption |]. rewrite Hp. apply Update_par.
Qed.

(** C1: for every engine that [NewUIntEngine] builds from parameters of the
    field types, the current value lies in [minValue, maxValue] after the
    construction (no call) and after every sequence of [Update] calls,
    whatever the operation, the step, the slices and the random draws. *)
Theorem currValue_stays_in_domain
  (params : UIntEngineParams) (o : UIntEngine)
  (calls : list (list byte * Z)) :
  params_wf params ->
  NewUIntEngine params = Ok o ->
  minValue params <= currValue (Updates o calls) <= maxValue params.
Proof.
  intros Hwf Hnew.
  destruct (NewUIntEngine_inv params o Hwf Hnew) as (Hinv & Hmin & Hmax & _).
  destruct (Updates_inv calls o Hinv) as [(_ & Hc & _) Hp].
  rewrite Hp in Hc. rewrite <- Hmin, <- Hmax. exact Hc.
Qed.

Lemma currValue_stays_in_domain_witness :
  params_wf cycle_params
  /\ NewUIntEngine cycle_params = Ok cycle_engine
  /\ minValue cycle_params
     <= currValue (Updates cycle_engine
                     [([0; 0], 0); ([0], 5); ([0; 0], 7); ([1; 2; 3], 9)])
     <= maxValue cycle_params.
Proof.
  assert (Hwf : params_wf cycle_params).
  { unfold params_wf, is_uint16, is_uint64, MaxUint16, MaxUint64. cbn. lia. }
  assert (Hnew : NewUIntEngine cycle_params = Ok cycle_engine) by reflexivity.
  split; [exact Hwf | split; [exact Hnew |]].
  exact (currValue_stays_in_domain cycle_params cycle_engine _ Hwf Hnew).
Defined.

(** ** The increment step *)

(** C2 (as amended): in a state that satisfies the invariant (bounds of type
    uint64, minValue <= currValue <= maxValue, step <= domainLen), one
    increment step sets currValue to currValue + step when
    step <= maxValue - currValue, and otherwise to
    minValue + (step - (maxValue - currValue) - 1). No operation of the body
    leaves the range of uint64. The new value is
    minValue + ((currValue - minValue + step) mod (maxValue - minValue + 1));
    the modulus is the stored domainLen whenever that equals
    maxValue - minValue + 1, which is every domain but the whole of uint64. *)
Theorem IncValue_spec (o : UIntEngine) :
  engine_inv o ->
  let left := maxValue (par o) - currValue o in
  let s := step (par o) in
  let D := maxValue (par o) - minValue (par o) + 1 in
  0 <= left <= MaxUint64
  /\ (s <= left ->
      currValue (IncValue o) = currValue o + s
      /\ currValue o + s <= MaxUint64)
  /\ (left < s ->
      currValue (IncValue o) = minValue (par o) + (s - left - 1)
      /\ 0 <= s - left - 1 <= MaxUint64
      /\ minValue (par o) + (s - left - 1) <= MaxUint64)
  /\ currValue (IncValue o)
     = minValue (par o) + (currValue o - minValue (par o) + s) mod D
  /\ (domainLen o = D ->
      currValue (IncValue o)
      = minValue (par o)
        + (currValue o - minValue (par o) + s) mod domainLen o).
Proof.
  intros Hinv left s D.
  pose proof (engine_inv_domain o Hinv) as [Hd HdM].
  rewrite (IncValue_exact o Hinv). cbn [set_currValue currValue].
  destruct Hinv as (H0 & Hc & Hm & _ & Hs).
  fold left s in Hs |- *. fold D in Hd.
  assert (Hmod : (if s <=? left then currValue o + s
                  else minValue (par o) + (s - left - 1))
                 = minValue (par o)
                   + (currValue o - minValue (par o) + s) mod D).
  { destruct (Z.leb_spec s left).
    - rewrite Z.mod_small by (unfold left, D in *; lia). lia.
    - rewrite <- (Z.mod_unique (currValue o - minValue (par o) + s) D 1
                    (currValue o - minValue (par o) + s - D))
        by (unfold left, D in *; lia).
      unfold left, D. lia. }
  split; [unfold left; lia |].
  split.
  { intros Hle. destruct (Z.leb_spec s left); [| lia].
    unfold left in *. split; [reflexivity | lia]. }
  split.
  { intros Hlt. destruct (Z.leb_spec s left); [lia |].
    unfold left in *. split; [reflexivity | lia]. }
  split; [exact Hmod |].
  intros ->. exact Hmod.
Qed.

Lemma IncValue_spec_witness :
  engine_inv cycle_engine
  /\ currValue (IncValue cycle_engine) = 1
  /\ currValue (IncValue cycle_engine)
     = minValue (par cycle_engine)
       + (currValue cycle_engine - minValue (par cycle_engine)
          + step (par cycle_engine))
         mod (maxValue (par cycle_engine) - minValue (par cycle_engine) + 1).
Proof.
  assert (Hinv : engine_inv cycle_engine).
  { unfold engine_inv.
    cbn [cycle_engine cycle_params par currValue domainLen
         minValue maxValue step].
    change (domainLen_of 0 3) with 4. unfold MaxUint64. lia. }
  pose proof (IncValue_spec cycle_engine Hinv) as Hspec. cbv zeta in Hspec.
  destruct Hspec as (_ & Hno_wrap & _ & Hmod & _).
  split; [exact Hinv |].
  split; [| exact Hmod].
  apply Hno_wrap. cbn. lia.
Defined.

(** C2 (as stated) fails on the domain that is the whole of uint64, where the
    stored domainLen is 2^64 - 1: from the largest value an increment by one
    wraps to 0, while the formula with modulus domainLen gives 1. *)
Lemma IncValue_mod_domainLen_counterexample :
  NewUIntEngine full_inc_params = Ok full_inc_engine
  /\ minValue (par full_inc_engine) <= currValue full_inc_engine
     <= maxValue (par full_inc_engine)
  /\ step (par full_inc_engine) <= domainLen full_inc_engine
  /\ currValue (IncValue full_inc_engine) = 0
  /\ minValue (par full_inc_engine)
     + (currValue full_inc_engine - minValue (par full_inc_engine)
        + step (par full_inc_engine)) mod domainLen full_inc_engine = 1
  /\ currValue (IncValue full_inc_engine)
     <> minValue (par full_inc_engine)
        + (currValue full_inc_engine - minValue (par full_inc_engine)
           + step (par full_inc_engine)) mod domainLen full_inc_engine.
Proof.
  split; [vm_compute; reflexivity |].
  split; [vm_compute; split; discriminate |].
  split; [vm_compute; discriminate |].
  split; [vm_compute; reflexivity |].
  split; [vm_compute; reflexivity |].
  vm_compute. discriminate.
Qed.

(** ** A slice that is too short *)

(** C3: when the slice is shorter than the configured size, [Update] returns
    the size error, leaves the slice and the whole engine as they were, and
    therefore every later [Update] behaves (returns and writes) as it would
    have before the rejected call. *)
Theorem Update_short_slice_rejected
  (o : UIntEngine) (b : list byte) (g : Z) :
  Z.of_nat (length b) < size (par o) ->
  ret (Update o b g) = Err (ErrShortSlice (size (par o)) (Z.of_nat (length b)))
  /\ buf (Update o b g) = b
  /\ eng (Update o b g) = o
  /\ forall (b' : list byte) (g' : Z),
       Update (eng (Update o b g)) b' g' = Update o b' g'.
Proof.
  intros Hshort.
  assert (Hrej : Update o b g
                 = mkOutcome
                     (Err (ErrShortSlice (size (par o)) (Z.of_nat (length b))))
                     b o).
  { unfold Update.
    destruct (Z.ltb_spec (Z.of_nat (length b)) (size (par o)));
      [reflexivity | lia]. }
  rewrite Hrej. cbn [ret buf eng]. repeat split; reflexivity.
Qed.

Lemma Update_short_slice_rejected_witness :
  Z.of_nat (length [7]) < size (par (set_currValue cycle_engine 2))
  /\ ret (Update (set_currValue cycle_engine 2) [7] 0) = Err (ErrShortSlice 2 1)
  /\ buf (Update (set_currValue cycle_engine 2) [7] 0) = [7]
  /\ buf (Update (eng (Update (set_currValue cycle_engine 2) [7] 0)) [7; 7] 0)
     = [0; 2].
Proof.
  assert (Hshort : Z.of_nat (length [7])
                   < size (par (set_currValue cycle_engine 2))) by (cbn; lia).
  destruct (Update_short_slice_rejected (set_currValue cycle_engine 2) [7] 0
              Hshort) as (Hret & Hbuf & Heng & Hnext).
  split; [exact Hshort |].
  split; [exact Hret |].
  split; [exact Hbuf |].
  rewrite Hnext. reflexivity.
Defined.

(** ** Construction *)

Lemma validateParams_config_error (p : UIntEngineParams) (e : error) :
  validateParams p = Err e -> config_error e.
Proof.
  unfold validateParams, findValue, findValue_from.
  destruct p as [sz off o st mn mx ini];
    cbn [size offset op step minValue maxValue initValue].
  destruct (Z.eqb_spec 1 sz);
    [| destruct (Z.eqb_spec 2 sz);
       [| destruct (Z.eqb_spec 4 sz); [| destruct (Z.eqb_spec 8 sz)]]];
    subst; simpl;
    repeat match goal with
      | |- context [if ?c then _ else _] => destruct c; simpl
      end;
    intros He; first [discriminate He | injection He as <-; exact I].
Qed.

(** C6: [NewUIntEngine] returns an error, and no engine, exactly when the
    parameters violate one of the conditions of [valid_config]; the error is
    one of those that validation builds; and it returns an engine exactly
    when the parameters meet every condition. *)
Theorem NewUIntEngine_fails_iff_invalid (p : UIntEngineParams) :
  ((exists e, NewUIntEngine p = Err e) <-> ~ valid_config p)
  /\ ((exists o, NewUIntEngine p = Ok o) <-> valid_config p)
  /\ (forall e, NewUIntEngine p = Err e -> config_error e).
Proof.
  rewrite <- validateParams_Err, <- validateParams_Ok.
  destruct (validateParams p) as [[] | e | q] eqn:Hv.
  - rewrite (NewUIntEngine_Ok p Hv). cbv zeta.
    split; [| split].
    + split; intros [e He]; discriminate He.
    + split; [reflexivity | eauto].
    + intros e He. discriminate He.
  - assert (Hnew : NewUIntEngine p = Err e)
      by (unfold NewUIntEngine; rewrite Hv; reflexivity).
    rewrite Hnew. split; [| split].
    + split; eauto.
    + split; [intros [o Ho]; discriminate Ho | intros Ho; discriminate Ho].
    + intros e' He'. injection He' as <-.
      exact (validateParams_config_error p e Hv).
  - exfalso. exact (validateParams_no_panic p q Hv).
Qed.

(** ** Five updates of a counter over [0, 3] *)

(** C9: the engine of width 2, offset 0, operation inc, step 1, minValue 0,
    maxValue 3, initValue 0 is built without error, and five successive
    [Update] calls into slices of two bytes (of any content, with any draw)
    succeed and leave in the slices the big-endian encodings of 0, 1, 2, 3
    and 0. *)
Theorem five_updates_wrap_to_min
  (x1 y1 x2 y2 x3 y3 x4 y4 x5 y5 g1 g2 g3 g4 g5 : Z) :
  NewUIntEngine cycle_params = Ok cycle_engine
  /\ Updates_trace cycle_engine
       [([x1; y1], g1); ([x2; y2], g2); ([x3; y3], g3); ([x4; y4], g4);
        ([x5; y5], g5)]
     = [(Ok tt, [0; 0]); (Ok tt, [0; 1]); (Ok tt, [0; 2]); (Ok tt, [0; 3]);
        (Ok tt, [0; 0])].
Proof. split; reflexivity. Qed.

(** ** Big-endian encoding *)

Lemma be_decode_from (l : list byte) :
  forall a : Z,
    fold_left (fun acc x => acc * 256 + x) l a
    = a * 256 ^ Z.of_nat (length l) + be_decode l.
Proof.
  unfold be_decode.
  induction l as [| x l IH]; intros a; cbn [fold_left length].
  - change (256 ^ Z.of_nat 0) with 1. lia.
  - rewrite (IH (a * 256 + x)), (IH (0 * 256 + x)).
    rewrite Nat2Z.inj_succ, Z.pow_succ_r by lia. lia.
Qed.

Lemma be_decode_cons (x : byte) (l : list byte) :
  be_decode (x :: l) = x * 256 ^ Z.of_nat (length l) + be_decode l.
Proof.
  unfold be_decode at 1. cbn [fold_left]. rewrite be_decode_from. lia.
Qed.

Lemma length_be_encode (n : nat) (v : Z) : length (be_encode n v) = n.
Proof. induction n as [| k IH]; cbn [be_encode length]; congruence. Qed.

Lemma be_decode_encode (n : nat) (v : Z) :
  be_decode (be_encode n v) = v mod 2 ^ (8 * Z.of_nat n).
Proof.
  induction n as [| k IH].
  - cbn. now rewrite Z.mod_1_r.
  - cbn [be_encode]. rewrite be_decode_cons, length_be_encode, IH.
    unfold uint8. rewrite Z.shiftr_div_pow2 by lia.
    replace (8 * Z.of_nat (S k)) with (8 * Z.of_nat k + 8) by lia.
    rewrite Z.pow_add_r by lia.
    rewrite (Z.rem_mul_r v (2 ^ (8 * Z.of_nat k)) (2 ^ 8)) by lia.
    replace (256 ^ Z.of_nat k) with (2 ^ (8 * Z.of_nat k)); [lia |].
    rewrite Z.pow_mul_r by lia. reflexivity.
Qed.

(** ** A successful update *)

Lemma PerformOp_Ok (o : UIntEngine) (g : Z) :
  engine_inv o -> In (op (par o)) ["inc"; "dec"; "rand"]%string ->
  exists o', PerformOp o g = Ok o'.
Proof.
  intros Hinv Hop. unfold PerformOp.
  destruct (String.eqb_spec (op (par o)) "inc"); [eauto |].
  destruct (String.eqb_spec (op (par o)) "dec"); [eauto |].
  destruct (String.eqb_spec (op (par o)) "rand").
  - rewrite RandValue_exact by assumption. eauto.
  - exfalso. cbn in Hop. intuition congruence.
Qed.

(** With parameters that pass validation and a slice that is long enough,
    [Update] succeeds, writes the current value in big-endian order on the
    first [size] bytes, leaves the rest of the slice and moves the engine by
    the configured operation. *)
Lemma Update_writes (o : UIntEngine) (b : list byte) (g : Z) :
  engine_inv o -> valid_config (par o) ->
  size (par o) <= Z.of_nat (length b) ->
  exists o',
    PerformOp o g = Ok o'
    /\ Update o b g
       = mkOutcome (Ok tt)
           (be_encode (Z.to_nat (size (par o))) (currValue o)
            ++ drop (Z.to_nat (size (par o))) b) o'.
Proof.
  intros Hinv (Hle & Hsize & Hfit & Hop & _) Hlen.
  destruct (PerformOp_Ok o g Hinv Hop) as [o' Hp].
  exists o'. split; [exact Hp |].
  destruct Hinv as (H0 & Hc & _).
  unfold Update. rewrite Hp.
  destruct (Z.ltb_spec (Z.of_nat (length b)) (size (par o))); [lia |].
  destruct Hsize as [Hs | [Hs | [Hs | [Hs | []]]]]; rewrite <- Hs in *.
  - destruct b as [| x0 rest]; cbn [length] in Hlen; [lia |]. reflexivity.
  - destruct b as [| x0 [| x1 rest]]; cbn [length] in Hlen; try lia.
    unfold uint16. rewrite Z.mod_small by lia. reflexivity.
  - destruct b as [| x0 [| x1 [| x2 [| x3 rest]]]];
      cbn [length] in Hlen; try lia.
    unfold uint32. rewrite Z.mod_small by lia. reflexivity.
  - destruct b as [| x0 [| x1 [| x2 [| x3 [| x4 [| x5 [| x6 [| x7 rest]]]]]]]];
      cbn [length] in Hlen; try lia.
    reflexivity.
Qed.

(** ** Engines reached from a construction *)

Lemma NewUIntEngine_valid (p : UIntEngineParams) (o : UIntEngine) :
  NewUIntEngine p = Ok o -> valid_config (par o).
Proof.
  intros Hnew. pose proof (NewUIntEngine_validated p o Hnew) as Hv.
  rewrite (NewUIntEngine_Ok p Hv) in Hnew. cbv zeta in Hnew.
  injection Hnew as <-. cbn [par].
  apply validateParams_Ok in Hv.
  destruct (step p >? domainLen_of (minValue p) (maxValue p));
    [exact Hv | exact Hv].
Qed.

(** What holds of an engine after its construction and any calls. *)
Lemma Updates_reached
  (p : UIntEngineParams) (o : UIntEngine) (calls : list (list byte * Z)) :
  params_wf p -> NewUIntEngine p = Ok o ->
  engine_inv (Updates o calls)
  /\ valid_config (par (Updates o calls))
  /\ minValue (par (Updates o calls)) = minValue p
  /\ maxValue (par (Updates o calls)) = maxValue p
  /\ size (par (Updates o calls)) = size p
  /\ op (par (Updates o calls)) = op p
  /\ domainLen (Updates o calls) = domainLen o.
Proof.
  intros Hwf Hnew.
  destruct (NewUIntEngine_inv p o Hwf Hnew) as (Hinv & Hmin & Hmax & Hsz & Hop).
  destruct (Updates_inv calls o Hinv) as [Hinv' Hpar].
  split; [exact Hinv' |]. rewrite Hpar.
  split; [exact (NewUIntEngine_valid p o Hnew) |].
  do 4 (split; [assumption |]).
  destruct Hinv' as (_ & _ & _ & Hd' & _).
  destruct Hinv as (_ & _ & _ & Hd & _).
  rewrite Hd', Hd, Hpar. reflexivity.
Qed.

(** ** The random operation *)

(** C4 (as amended): for an engine built by [NewUIntEngine] with operation
    rand, after any calls, and for every target v of [minValue, maxValue]
    other than 2^64 - 1 in a domain that starts at 0 (the domain that is the
    whole of uint64), there is a draw of type uint64 with which [Update], on
    a slice that is long enough, succeeds and makes v the current value,
    v being minValue plus the draw modulo domainLen; the next [Update]
    writes v in big-endian order. *)
Theorem RandValue_covers_domain
  (params : UIntEngineParams) (o : UIntEngine)
  (calls : list (list byte * Z)) (b : list byte) (v : Z) :
  params_wf params ->
  NewUIntEngine params = Ok o ->
  op params = "rand"%string ->
  size params <= Z.of_nat (length b) ->
  minValue params <= v <= maxValue params ->
  ~ (minValue params = 0 /\ v = MaxUint64) ->
  exists g,
    is_uint64 g
    /\ ret (Update (Updates o calls) b g) = Ok tt
    /\ currValue (eng (Update (Updates o calls) b g)) = v
    /\ v = minValue params + g mod domainLen o
    /\ forall (b' : list byte) (g' : Z),
         size params <= Z.of_nat (length b') ->
         take (Z.to_nat (size params))
           (buf (Update (eng (Update (Updates o calls) b g)) b' g'))
         = be_encode (Z.to_nat (size params)) v.
Proof.
  intros Hwf Hnew Hrand Hlen Hv Hnot.
  destruct (Updates_reached params o calls Hwf Hnew)
    as (Hinv & Hval & Hmin & Hmax & Hsz & Hop & Hdom).
  set (o1 := Updates o calls) in *.
  assert (Hd : v - minValue params < domainLen o1).
  { destruct Hinv as (H0 & _ & Hm & Hd & _). rewrite Hd, Hmin, Hmax.
    rewrite Hmin in H0. rewrite Hmax in Hm.
    rewrite domainLen_of_exact by lia.
    destruct (Z.eqb_spec (minValue params) 0);
      destruct (Z.eqb_spec (maxValue params) MaxUint64); cbn [andb]; lia. }
  assert (Hg : is_uint64 (v - minValue params)).
  { destruct Hwf as (_ & _ & _ & Hmn & Hmx & _). unfold is_uint64 in *. lia. }
  exists (v - minValue params).
  destruct (Update_writes o1 b (v - minValue params) Hinv Hval
              ltac:(rewrite Hsz; exact Hlen)) as (o2 & Hp & Hup).
  assert (Ho2 : o2 = set_currValue o1 v).
  { unfold PerformOp in Hp. rewrite Hop, Hrand in Hp. cbn [String.eqb] in Hp.
    change (("rand" =? "inc")%string) with false in Hp.
    change (("rand" =? "dec")%string) with false in Hp.
    change (("rand" =? "rand")%string) with true in Hp.
    cbv iota in Hp.
    rewrite RandValue_exact in Hp by assumption.
    injection Hp as <-. f_equal. rewrite Hmin.
    rewrite Z.mod_small by lia. lia. }
  rewrite Hup. cbn [ret buf eng]. subst o2.
  split; [exact Hg |]. split; [reflexivity |]. split; [reflexivity |].
  split.
  { rewrite <- Hdom. rewrite Z.mod_small by lia. lia. }
  intros b' g' Hlen'.
  assert (Hinv2 : engine_inv (set_currValue o1 v)).
  { apply set_currValue_inv; [assumption | lia]. }
  destruct (Update_writes (set_currValue o1 v) b' g' Hinv2 Hval
              ltac:(cbn [set_currValue par]; rewrite Hsz; exact Hlen'))
    as (o3 & _ & Hup').
  rewrite Hup'. cbn [buf set_currValue par currValue]. rewrite Hsz.
  apply take_app_length'. now rewrite length_be_encode.
Qed.

Lemma RandValue_covers_domain_witness :
  params_wf small_rand_params
  /\ NewUIntEngine small_rand_params = Ok small_rand_engine
  /\ op small_rand_params = "rand"%string
  /\ size small_rand_params <= Z.of_nat (length [0])
  /\ minValue small_rand_params <= 12 <= maxValue small_rand_params
  /\ ~ (minValue small_rand_params = 0 /\ 12 = MaxUint64)
  /\ exists g,
       is_uint64 g
       /\ ret (Update (Updates small_rand_engine []) [0] g) = Ok tt
       /\ currValue (eng (Update (Updates small_rand_engine []) [0] g)) = 12
       /\ 12 = minValue small_rand_params + g mod domainLen small_rand_engine
       /\ forall (b' : list byte) (g' : Z),
            size small_rand_params <= Z.of_nat (length b') ->
            take (Z.to_nat (size small_rand_params))
              (buf (Update
                      (eng (Update (Updates small_rand_engine []) [0] g))
                      b' g'))
            = be_encode (Z.to_nat (size small_rand_params)) 12.
Proof.
  assert (Hwf : params_wf small_rand_params).
  { unfold params_wf, is_uint16, is_uint64, MaxUint16, MaxUint64. cbn. lia. }
  assert (Hnew : NewUIntEngine small_rand_params = Ok small_rand_engine)
    by reflexivity.
  assert (Hlen : size small_rand_params <= Z.of_nat (length [0]))
    by (cbn; lia).
  assert (Hv : minValue small_rand_params <= 12 <= maxValue small_rand_params)
    by (cbn; lia).
  assert (Hnot : ~ (minValue small_rand_params = 0 /\ 12 = MaxUint64)).
  { intros [Hmin _]. cbn in Hmin. discriminate Hmin. }
  repeat (split; [assumption || reflexivity |]).
  exact (RandValue_covers_domain small_rand_params small_rand_engine [] [0] 12
           Hwf Hnew eq_refl Hlen Hv Hnot).
Defined.

(** C4 (as stated) fails on the domain that is the whole of uint64: the
    stored domainLen is 2^64 - 1, a draw reduced modulo it is at most
    2^64 - 2, and so no draw makes maxValue = 2^64 - 1 the current value. *)
Lemma RandValue_full_domain_counterexample :
  params_wf full_rand_params
  /\ NewUIntEngine full_rand_params = Ok full_rand_engine
  /\ op full_rand_params = "rand"%string
  /\ minValue full_rand_params <= MaxUint64 <= maxValue full_rand_params
  /\ ~ exists g,
         is_uint64 g
         /\ currValue (eng (Update full_rand_engine (replicate 8 0) g))
            = MaxUint64.
Proof.
  assert (Hwf : params_wf full_rand_params).
  { unfold params_wf, is_uint16, is_uint64. cbn.
    unfold MaxUint16, MaxUint64. lia. }
  assert (Hnew : NewUIntEngine full_rand_params = Ok full_rand_engine)
    by (vm_compute; reflexivity).
  split; [exact Hwf |]. split; [exact Hnew |]. split; [reflexivity |].
  split; [cbn; unfold MaxUint64; lia |].
  intros (g & _ & Hcur).
  destruct (NewUIntEngine_inv _ _ Hwf Hnew) as (Hinv & _).
  pose proof (NewUIntEngine_valid _ _ Hnew) as Hval.
  destruct (Update_writes full_rand_engine (replicate 8 0) g Hinv Hval
              ltac:(cbn; lia)) as (o' & Hp & Hup).
  rewrite Hup in Hcur. cbn [eng] in Hcur.
  unfold PerformOp in Hp.
  change (op (par full_rand_engine)) with "rand"%string in Hp.
  change (("rand" =? "inc")%string) with false in Hp.
  change (("rand" =? "dec")%string) with false in Hp.
  change (("rand" =? "rand")%string) with true in Hp.
  cbv iota in Hp.
  rewrite RandValue_exact in Hp by assumption.
  injection Hp as <-. cbn [set_currValue currValue] in Hcur.
  change (minValue (par full_rand_engine)) with 0 in Hcur.
  change (domainLen full_rand_engine) with MaxUint64 in Hcur.
  pose proof (Z.mod_pos_bound g MaxUint64 ltac:(unfold MaxUint64; lia)).
  lia.
Qed.

(** ** Update of the histogram engine *)

Lemma copy_take (dst src : list byte) (n : nat) :
  (n <= length dst)%nat -> (n <= length src)%nat ->
  copy (take n dst) (take n src) = (take n src, Z.of_nat n).
Proof.
  intros Hd Hs. unfold copy. rewrite !length_take.
  replace (Nat.min (Nat.min n (length dst)) (Nat.min n (length src)))
    with n by lia.
  rewrite take_take, Nat.min_id.
  rewrite drop_ge by (rewrite length_take; lia).
  now rewrite app_nil_r.
Qed.

(** The outcome of [Update] once the slice is long enough and the sampled
    entry has produced enough bytes: the first [size] bytes of the slice are
    those of the entry, the rest is kept. *)
Lemma HistogramEngine_Update_copies
  {G : Type} (o : HistogramEngine.t G) (b : list byte) (entryIndex g : Z)
  (e : entry) (newValueBytes : list byte) :
  0 <= HistogramEngine.size (HistogramEngine.par o) <= Z.of_nat (length b) ->
  0 <= entryIndex ->
  HistogramEngine.entries (HistogramEngine.par o) !! Z.to_nat entryIndex
    = Some e ->
  entry_GetValue e g = Ok newValueBytes ->
  HistogramEngine.size (HistogramEngine.par o)
    <= Z.of_nat (length newValueBytes) ->
  HistogramEngine.Update o b entryIndex g
  = mkOutcome (Ok tt)
      (take (Z.to_nat (HistogramEngine.size (HistogramEngine.par o)))
         newValueBytes
       ++ drop (Z.to_nat (HistogramEngine.size (HistogramEngine.par o))) b)
      o.
Proof.
  intros Hlen Hi He Hval Hnew. unfold HistogramEngine.Update.
  destruct (Z.ltb_spec (Z.of_nat (length b))
              (HistogramEngine.size (HistogramEngine.par o))); [lia |].
  destruct (Z.ltb_spec entryIndex 0); [lia |].
  rewrite He, Hval.
  destruct (Z.ltb_spec (Z.of_nat (length newValueBytes))
              (HistogramEngine.size (HistogramEngine.par o))); [lia |].
  rewrite copy_take by lia.
  rewrite Z2Nat.id by lia. rewrite Z.eqb_refl. reflexivity.
Qed.

(** C10: whenever [Update] of the histogram engine returns an error, the
    slice that it leaves is the slice that it was given. *)
Theorem HistogramEngine_Update_error_keeps_slice
  {G : Type} (o : HistogramEngine.t G) (b : list byte) (entryIndex g : Z)
  (e : error) :
  ret (HistogramEngine.Update o b entryIndex g) = Err e ->
  buf (HistogramEngine.Update o b entryIndex g) = b.
Proof.
  unfold HistogramEngine.Update.
  set (sz := HistogramEngine.size (HistogramEngine.par o)).
  destruct (Z.ltb_spec (Z.of_nat (length b)) sz) as [| Hb];
    [reflexivity |].
  destruct (entryIndex <? 0); [reflexivity |].
  destruct (HistogramEngine.entries (HistogramEngine.par o)
              !! Z.to_nat entryIndex) as [entry |]; [| reflexivity].
  destruct (entry_GetValue entry g) as [newValueBytes | e' | q];
    [| reflexivity | reflexivity].
  destruct (Z.ltb_spec (Z.of_nat (length newValueBytes)) sz) as [| Hn];
    [reflexivity |].
  destruct (Z.le_gt_cases 0 sz) as [Hpos | Hneg].
  - rewrite copy_take by lia. rewrite Z2Nat.id by lia.
    rewrite Z.eqb_refl. cbn [negb ret]. intros Hret. discriminate Hret.
  - replace (Z.to_nat sz) with 0%nat by lia. intros _.
    unfold copy. rewrite !take_0. cbn [length Nat.min drop app].
    destruct (negb (Z.of_nat 0 =? sz)); reflexivity.
Qed.

Lemma HistogramEngine_Update_error_keeps_slice_witness :
  ret (HistogramEngine.Update reversed_range_histogram [9; 8; 7; 6; 5] 0 0)
  = Err (ErrMaxSmallerThanMin 1 5)
  /\ buf (HistogramEngine.Update reversed_range_histogram [9; 8; 7; 6; 5] 0 0)
     = [9; 8; 7; 6; 5].
Proof.
  assert (Hret : ret (HistogramEngine.Update reversed_range_histogram
                        [9; 8; 7; 6; 5] 0 0)
                 = Err (ErrMaxSmallerThanMin 1 5)) by reflexivity.
  split; [exact Hret |].
  exact (HistogramEngine_Update_error_keeps_slice reversed_range_histogram
           [9; 8; 7; 6; 5] 0 0 _ Hret).
Defined.

(** C5 (as amended): [Update] of the histogram engine first compares the
    length of the slice with the size and, when the slice is shorter,
    returns the size error at once, whatever the sampled index and entry;
    only with a slice that is long enough does it take the entry at the
    sampled index, and then a failure of that entry is the error
    returned. In both cases the slice and the engine are left as they
    were. *)
Theorem HistogramEngine_Update_checks_slice_first
  {G : Type} (o : HistogramEngine.t G) (b : list byte) (entryIndex g : Z) :
  (Z.of_nat (length b) < HistogramEngine.size (HistogramEngine.par o) ->
   HistogramEngine.Update o b entryIndex g
   = mkOutcome
       (Err (ErrShortSlice (HistogramEngine.size (HistogramEngine.par o))
               (Z.of_nat (length b)))) b o)
  /\ (HistogramEngine.size (HistogramEngine.par o) <= Z.of_nat (length b) ->
      forall (entry : entry) (e : error),
        0 <= entryIndex ->
        HistogramEngine.entries (HistogramEngine.par o) !! Z.to_nat entryIndex
          = Some entry ->
        entry_GetValue entry g = Err e ->
        HistogramEngine.Update o b entryIndex g = mkOutcome (Err e) b o).
Proof.
  unfold HistogramEngine.Update. split.
  - intros Hshort.
    destruct (Z.ltb_spec (Z.of_nat (length b))
                (HistogramEngine.size (HistogramEngine.par o)));
      [reflexivity | lia].
  - intros Hlong entry e Hi Hentry Hval.
    destruct (Z.ltb_spec (Z.of_nat (length b))
                (HistogramEngine.size (HistogramEngine.par o))); [lia |].
    destruct (Z.ltb_spec entryIndex 0); [lia |].
    rewrite Hentry, Hval. reflexivity.
Qed.

(** C5 (as stated) fails: with a slice shorter than the size and an entry
    whose [GetValue] fails, the error returned is the size error, not the
    failure of the entry. *)
Lemma HistogramEngine_Update_order_counterexample :
  Z.of_nat (length (@nil byte))
  < HistogramEngine.size (HistogramEngine.par reversed_range_histogram)
  /\ HistogramEngine.entries (HistogramEngine.par reversed_range_histogram)
     !! Z.to_nat 0 = Some (Entry reversed_range_entry)
  /\ entry_GetValue (Entry reversed_range_entry) 0
     = Err (ErrMaxSmallerThanMin 1 5)
  /\ ret (HistogramEngine.Update reversed_range_histogram [] 0 0)
     = Err (ErrShortSlice 4 0)
  /\ ret (HistogramEngine.Update reversed_range_histogram [] 0 0)
     <> Err (ErrMaxSmallerThanMin 1 5).
Proof.
  split; [cbn; lia |].
  split; [reflexivity |].
  split; [reflexivity |].
  split; [reflexivity |].
  intros Heq. discriminate Heq.
Qed.

(** ** Histogram entries *)

Lemma uint32_small (x : Z) : 0 <= x <= MaxUint32 -> uint32 x = x.
Proof. unfold uint32, MaxUint32. intros H. apply Z.mod_small. lia. Qed.

(** A range entry whose bounds are reversed returns its error. *)
Lemma HistogramUInt32RangeEntry_reversed
  (o : HistogramUInt32RangeEntry.t) (g : Z) :
  HistogramUInt32RangeEntry.max o < HistogramUInt32RangeEntry.min o ->
  HistogramUInt32RangeEntry.GetValue o g
  = Err (ErrMaxSmallerThanMin (HistogramUInt32RangeEntry.max o)
           (HistogramUInt32RangeEntry.min o)).
Proof.
  intros Hlt. unfold HistogramUInt32RangeEntry.GetValue.
  destruct (Z.ltb_spec (HistogramUInt32RangeEntry.max o)
              (HistogramUInt32RangeEntry.min o)); [reflexivity | lia].
Qed.

(** A range entry over bounds of type uint32 that are in order and do not
    span the whole of uint32 returns, for every draw, the four big-endian
    bytes of a number of the range. *)
Lemma HistogramUInt32RangeEntry_in_range
  (o : HistogramUInt32RangeEntry.t) (g : Z) :
  0 <= HistogramUInt32RangeEntry.min o ->
  HistogramUInt32RangeEntry.min o <= HistogramUInt32RangeEntry.max o ->
  HistogramUInt32RangeEntry.max o <= MaxUint32 ->
  ~ (HistogramUInt32RangeEntry.min o = 0
     /\ HistogramUInt32RangeEntry.max o = MaxUint32) ->
  exists v,
    HistogramUInt32RangeEntry.min o <= v <= HistogramUInt32RangeEntry.max o
    /\ HistogramUInt32RangeEntry.GetValue o g = Ok (be_encode 4 v)
    /\ be_decode (be_encode 4 v) = v.
Proof.
  destruct o as [mn mx pr]. cbn [HistogramUInt32RangeEntry.min
                                   HistogramUInt32RangeEntry.max].
  intros H0 Hle Hmax Hnot.
  exists (mn + g mod (mx - mn + 1)).
  pose proof (Z.mod_pos_bound g (mx - mn + 1) ltac:(lia)) as Hmod.
  split; [lia |]. split.
  - unfold HistogramUInt32RangeEntry.GetValue.
    cbn [HistogramUInt32RangeEntry.min HistogramUInt32RangeEntry.max].
    destruct (Z.ltb_spec mx mn); [lia |].
    change (make 4) with (@Ok (list byte) [0; 0; 0; 0]). cbn [bind].
    rewrite (uint32_small (mx - mn)) by lia.
    rewrite (uint32_small (mx - mn + 1)) by (unfold MaxUint32 in *; lia).
    rewrite urem_Ok by lia. cbn [bind].
    rewrite uint32_small by lia. reflexivity.
  - rewrite be_decode_encode. apply Z.mod_small.
    unfold MaxUint32 in *. cbn. lia.
Qed.

(** C7 (defect of the code): on the range entry with min = 0 and
    max = 2^32 - 1, whose bounds are in order, [GetValue] does not return
    four bytes: the length of the range wraps to 0 in uint32 and the
    remainder by it aborts the call, whatever the draw. *)
Theorem HistogramUInt32RangeEntry_full_range_panics (g : Z) :
  HistogramUInt32RangeEntry.min full_range_entry
  <= HistogramUInt32RangeEntry.max full_range_entry
  /\ is_uint32 (HistogramUInt32RangeEntry.min full_range_entry)
  /\ is_uint32 (HistogramUInt32RangeEntry.max full_range_entry)
  /\ HistogramUInt32RangeEntry.GetValue full_range_entry g
     = Panic PanicDivideByZero.
Proof.
  unfold is_uint32. cbn. unfold MaxUint32.
  repeat split; try lia; discriminate.
Qed.

(** A rune that UTF-8 encodes: a code point up to [MaxRune] that is not a
    surrogate half. For such a rune the entry returns, without error, as
    many bytes as [RuneLen] tells. *)
Lemma HistogramRuneEntry_valid_rune (o : HistogramRuneEntry.t) (g : Z) :
  0 <= HistogramRuneEntry.r o <= MaxRune ->
  ~ (surrogateMin <= HistogramRuneEntry.r o <= surrogateMax) ->
  exists b,
    HistogramRuneEntry.GetValue o g = Ok b
    /\ Z.of_nat (length b) = RuneLen (HistogramRuneEntry.r o).
Proof.
  destruct o as [r pr]. cbn [HistogramRuneEntry.r]. intros Hr Hs.
  unfold HistogramRuneEntry.GetValue, RuneLen, EncodeRune.
  cbn [HistogramRuneEntry.r].
  unfold uint32. rewrite (Z.mod_small r) by (unfold MaxRune in *; lia).
  rewrite Z.gtb_ltb.
  unfold MaxRune, surrogateMin, surrogateMax, rune1Max, rune2Max, rune3Max in *.
  destruct (Z.ltb_spec r 0); [lia |].
  destruct (Z.leb_spec r 0x7F); [eexists; split; reflexivity |].
  destruct (Z.leb_spec r 0x7FF); [eexists; split; reflexivity |].
  destruct (Z.ltb_spec 0x10FFFF r); [lia |].
  destruct (Z.leb_spec 0xD800 r); destruct (Z.leb_spec r 0xDFFF);
    try lia; cbn [andb orb];
    (destruct (Z.leb_spec r 0xFFFF); [eexists; split; reflexivity |]);
    (destruct (Z.leb_spec r 0x10FFFF); [eexists; split; reflexivity | lia]).
Qed.

(** C8 (defect of the code): on the rune entry that carries the surrogate
    half U+D800, a value of type rune, [GetValue] does not return: [RuneLen]
    is -1 and [make] aborts the call on the negative length. *)
Theorem HistogramRuneEntry_surrogate_panics (g : Z) :
  is_rune (HistogramRuneEntry.r surrogate_entry)
  /\ RuneLen (HistogramRuneEntry.r surrogate_entry) = -1
  /\ HistogramRuneEntry.GetValue surrogate_entry g = Panic PanicMakeSliceLen.
Proof.
  unfold is_rune. cbn. repeat split; try lia; discriminate.
Qed.

(** * Further properties of the integer engine *)

(** ** The decrement step and its relation to the increment step *)

(** X1: in a state that satisfies the invariant, one decrement step sets
    currValue to currValue - step when step <= currValue - minValue, and
    otherwise to maxValue - (step - (currValue - minValue) - 1); no operation
    of the body leaves the range of uint64; the new value is
    maxValue - ((maxValue - currValue + step) mod (maxValue - minValue + 1)). *)
Theorem DecValue_spec (o : UIntEngine) :
  engine_inv o ->
  let left := currValue o - minValue (par o) in
  let s := step (par o) in
  let D := maxValue (par o) - minValue (par o) + 1 in
  0 <= left <= MaxUint64
  /\ (s <= left ->
      currValue (DecValue o) = currValue o - s /\ 0 <= currValue o - s)
  /\ (left < s ->
      currValue (DecValue o) = maxValue (par o) - (s - left - 1)
      /\ 0 <= s - left - 1 <= MaxUint64
      /\ 0 <= maxValue (par o) - (s - left - 1))
  /\ currValue (DecValue o)
     = maxValue (par o) - (maxValue (par o) - currValue o + s) mod D.
Proof.
  intros Hinv left s D.
  pose proof (engine_inv_domain o Hinv) as [Hd HdM].
  rewrite (DecValue_exact o Hinv). cbn [set_currValue currValue].
  destruct Hinv as (H0 & Hc & Hm & _ & Hs).
  fold left s in Hs |- *. fold D in Hd.
  split; [unfold left; lia |].
  split.
  { intros Hle. destruct (Z.leb_spec s left); [| lia].
    unfold left in *. split; [reflexivity | lia]. }
  split.
  { intros Hlt. destruct (Z.leb_spec s left); [lia |].
    unfold left in *. split; [reflexivity | lia]. }
  destruct (Z.leb_spec s left).
  - rewrite Z.mod_small by (unfold left, D in *; lia). lia.
  - rewrite <- (Z.mod_unique (maxValue (par o) - currValue o + s) D 1
                  (maxValue (par o) - currValue o + s - D))
      by (unfold left, D in *; lia).
    unfold left, D. lia.
Qed.

Lemma cycle_engine_inv : engine_inv cycle_engine.
Proof.
  unfold engine_inv.
  cbn [cycle_engine cycle_params par currValue domainLen
       minValue maxValue step].
  change (domainLen_of 0 3) with 4. unfold MaxUint64. lia.
Defined.

Lemma DecValue_spec_witness :
  engine_inv cycle_engine
  /\ currValue (DecValue cycle_engine) = 3
  /\ currValue (DecValue cycle_engine)
     = maxValue (par cycle_engine)
       - (maxValue (par cycle_engine) - currValue cycle_engine
          + step (par cycle_engine))
         mod (maxValue (par cycle_engine) - minValue (par cycle_engine) + 1).
Proof.
  pose proof (DecValue_spec cycle_engine cycle_engine_inv) as Hspec.
  cbv zeta in Hspec. destruct Hspec as (_ & _ & Hwrap & Hmod).
  split; [exact cycle_engine_inv |].
  split; [| exact Hmod].
  apply Hwrap. cbn. lia.
Defined.

(** X2: in a state that satisfies the invariant, a decrement step undoes an
    increment step and an increment step undoes a decrement step: each
    composition gives back the very same engine state. *)
Theorem DecValue_IncValue_inverse (o : UIntEngine) :
  engine_inv o ->
  DecValue (IncValue o) = o /\ IncValue (DecValue o) = o.
Proof.
  intros Hinv.
  pose proof (engine_inv_domain o Hinv) as [Hd HdM].
  pose proof (IncValue_inv o Hinv) as Hi.
  pose proof (DecValue_inv o Hinv) as Hde.
  rewrite (DecValue_exact _ Hi), (IncValue_exact _ Hde).
  rewrite (IncValue_exact o Hinv), (DecValue_exact o Hinv).
  destruct Hinv as (H0 & Hc & Hm & _ & Hs).
  destruct o as [p c d]. unfold set_currValue.
  cbn [par currValue domainLen] in *.
  split; f_equal.
  - destruct (Z.leb_spec (step p) (maxValue p - c));
      match goal with
      | |- context [?a <=? ?b] => destruct (Z.leb_spec a b)
      end; lia.
  - destruct (Z.leb_spec (step p) (c - minValue p));
      match goal with
      | |- context [?a <=? ?b] => destruct (Z.leb_spec a b)
      end; lia.
Qed.

Lemma DecValue_IncValue_inverse_witness :
  DecValue (IncValue cycle_engine) = cycle_engine
  /\ IncValue (DecValue cycle_engine) = cycle_engine.
Proof. exact (DecValue_IncValue_inverse cycle_engine cycle_engine_inv). Defined.

(** ** Successive increments *)

(** With parameters that pass validation and a slice that is long enough,
    [Update] writes the current value and then takes the branch of
    [PerformOp]. *)
Lemma Update_write_phase (o : UIntEngine) (b : list byte) (g : Z) :
  In (size (par o)) [1; 2; 4; 8] ->
  0 <= currValue o <= 2 ^ (8 * size (par o)) - 1 ->
  size (par o) <= Z.of_nat (length b) ->
  let b' := be_encode (Z.to_nat (size (par o))) (currValue o)
            ++ drop (Z.to_nat (size (par o))) b in
  Update o b g
  = match PerformOp o g with
    | Ok o' => mkOutcome (Ok tt) b' o'
    | Err e => mkOutcome (Err e) b' o
    | Panic q => mkOutcome (Panic q) b' o
    end.
Proof.
  intros Hsize Hfit Hlen. cbv zeta. unfold Update.
  destruct (Z.ltb_spec (Z.of_nat (length b)) (size (par o))); [lia |].
  destruct Hsize as [Hs | [Hs | [Hs | [Hs | []]]]]; rewrite <- Hs in *.
  - destruct b as [| x0 rest]; cbn [length] in Hlen; [lia |]. reflexivity.
  - destruct b as [| x0 [| x1 rest]]; cbn [length] in Hlen; try lia.
    unfold uint16. rewrite Z.mod_small by lia. reflexivity.
  - destruct b as [| x0 [| x1 [| x2 [| x3 rest]]]];
      cbn [length] in Hlen; try lia.
    unfold uint32. rewrite Z.mod_small by lia. reflexivity.
  - destruct b as [| x0 [| x1 [| x2 [| x3 [| x4 [| x5 [| x6 [| x7 rest]]]]]]]];
      cbn [length] in Hlen; try lia.
    reflexivity.
Qed.

Lemma valid_config_fit (o : UIntEngine) :
  engine_inv o -> valid_config (par o) ->
  In (size (par o)) [1; 2; 4; 8]
  /\ 0 <= currValue o <= 2 ^ (8 * size (par o)) - 1.
Proof.
  intros (H0 & Hc & _) (_ & Hsize & Hfit & _). split; [assumption | lia].
Qed.

Lemma PerformOp_inc (o : UIntEngine) (g : Z) :
  op (par o) = "inc"%string -> PerformOp o g = Ok (IncValue o).
Proof. intros Hop. unfold PerformOp. rewrite Hop. reflexivity. Qed.

Lemma PerformOp_dec (o : UIntEngine) (g : Z) :
  op (par o) = "dec"%string -> PerformOp o g = Ok (DecValue o).
Proof. intros Hop. unfold PerformOp. rewrite Hop. reflexivity. Qed.

Lemma Update_inc_eng (o : UIntEngine) (b : list byte) (g : Z) :
  engine_inv o -> valid_config (par o) -> op (par o) = "inc"%string ->
  size (par o) <= Z.of_nat (length b) ->
  eng (Update o b g) = IncValue o.
Proof.
  intros Hinv Hval Hop Hlen.
  destruct (valid_config_fit o Hinv Hval) as [Hsize Hfit].
  rewrite (Update_write_phase o b g Hsize Hfit Hlen). cbv zeta.
  rewrite (PerformOp_inc o g Hop). reflexivity.
Qed.

Lemma IncValue_par (o : UIntEngine) : par (IncValue o) = par o.
Proof.
  unfold IncValue. cbv zeta.
  destruct (step (par o) <=? uint64 (maxValue (par o) - currValue o));
    reflexivity.
Qed.

(** The current value after a run of increments, all on slices that are long
    enough. *)
Lemma Updates_inc_closed_form (calls : list (list byte * Z)) :
  forall o : UIntEngine,
    engine_inv o -> valid_config (par o) -> op (par o) = "inc"%string ->
    Forall (fun c => size (par o) <= Z.of_nat (length (fst c))) calls ->
    currValue (Updates o calls)
    = minValue (par o)
      + (currValue o - minValue (par o)
         + Z.of_nat (length calls) * step (par o))
        mod (maxValue (par o) - minValue (par o) + 1).
Proof.
  induction calls as [| [b g] rest IH]; intros o Hinv Hval Hop Hall.
  - cbn [Updates length]. destruct Hinv as (H0 & Hc & Hm & _).
    rewrite Z.mod_small by lia. lia.
  - apply Forall_cons in Hall as [Hb Hrest]. cbn [fst] in Hb.
    cbn [Updates]. rewrite (Update_inc_eng o b g Hinv Hval Hop Hb).
    pose proof (IncValue_par o) as Hpar.
    rewrite IH; rewrite ?Hpar; try assumption; [| now apply IncValue_inv].
    pose proof (IncValue_spec o Hinv) as Hspec. cbv zeta in Hspec.
    destruct Hspec as (_ & _ & _ & Hmod & _). rewrite Hmod.
    f_equal.
    replace (minValue (par o)
             + (currValue o - minValue (par o) + step (par o))
               mod (maxValue (par o) - minValue (par o) + 1)
             - minValue (par o))
      with ((currValue o - minValue (par o) + step (par o))
            mod (maxValue (par o) - minValue (par o) + 1)) by lia.
    rewrite Zplus_mod_idemp_l. f_equal.
    cbn [length]. lia.
Qed.

(** ** The state that construction builds *)

Lemma NewUIntEngine_state (p : UIntEngineParams) (o : UIntEngine) :
  params_wf p -> NewUIntEngine p = Ok o ->
  currValue o = (if initValue p =? 0 then minValue p else initValue p)
  /\ domainLen o
     = (if (minValue p =? 0) && (maxValue p =? MaxUint64) then MaxUint64
        else maxValue p - minValue p + 1)
  /\ step (par o)
     = (if step p <=? domainLen o then step p else step p mod domainLen o)
  /\ par o = set_step p (step (par o)).
Proof.
  intros (_ & _ & Hst & Hmin & Hmax & Hini) Hnew.
  pose proof (NewUIntEngine_validated p o Hnew) as Hv.
  rewrite (NewUIntEngine_Ok p Hv) in Hnew. cbv zeta in Hnew.
  apply validateParams_Ok in Hv. destruct Hv as (Hle & _ & _ & _ & Hin).
  unfold is_uint64 in *.
  injection Hnew as <-. cbn [par currValue domainLen].
  rewrite <- (domainLen_of_exact (minValue p) (maxValue p)) by lia.
  split.
  { unfold maxUInt64. destruct (Z.geb_spec (minValue p) (initValue p));
      destruct (Z.eqb_spec (initValue p) 0); lia. }
  split; [reflexivity |].
  rewrite Z.gtb_ltb.
  destruct (Z.ltb_spec (domainLen_of (minValue p) (maxValue p)) (step p));
    destruct (Z.leb_spec (step p) (domainLen_of (minValue p) (maxValue p)));
    try lia; cbn [set_step step]; split; try reflexivity.
  destruct p; reflexivity.
Qed.

(** The reduced step and the configured step agree modulo the size of the
    domain. *)
Lemma NewUIntEngine_step_congruent (p : UIntEngineParams) (o : UIntEngine) :
  params_wf p -> NewUIntEngine p = Ok o ->
  step (par o) mod (maxValue p - minValue p + 1)
  = step p mod (maxValue p - minValue p + 1).
Proof.
  intros Hwf Hnew.
  destruct (NewUIntEngine_state p o Hwf Hnew) as (_ & Hd & Hs & _).
  destruct Hwf as (_ & _ & Hst & Hmin & Hmax & _). unfold is_uint64 in *.
  rewrite Hs, Hd.
  destruct ((minValue p =? 0) && (maxValue p =? MaxUint64)).
  - destruct (Z.leb_spec (step p) MaxUint64); [reflexivity | lia].
  - destruct (Z.leb_spec (step p) (maxValue p - minValue p + 1));
      [reflexivity |].
    apply Z.mod_mod. pose proof (NewUIntEngine_validated p o Hnew) as Hv.
    apply validateParams_Ok in Hv. destruct Hv as (Hle & _). lia.
Qed.

(** X3: construction keeps every parameter but the step; the engine starts
    at initValue, or at minValue when initValue is 0; the stored domain
    length is maxValue - minValue + 1, or 2^64 - 1 for the domain that is the
    whole of uint64; the step is kept when it does not exceed the domain
    length and is otherwise reduced modulo it. *)
Theorem NewUIntEngine_initial_state (p : UIntEngineParams) (o : UIntEngine) :
  params_wf p -> NewUIntEngine p = Ok o ->
  currValue o = (if initValue p =? 0 then minValue p else initValue p)
  /\ domainLen o
     = (if (minValue p =? 0) && (maxValue p =? MaxUint64) then MaxUint64
        else maxValue p - minValue p + 1)
  /\ step (par o)
     = (if step p <=? domainLen o then step p else step p mod domainLen o)
  /\ par o = set_step p (step (par o)).
Proof. exact (NewUIntEngine_state p o). Qed.

Lemma cycle_params_wf : params_wf cycle_params.
Proof.
  unfold params_wf, is_uint16, is_uint64, MaxUint16, MaxUint64. cbn. lia.
Defined.

Lemma cycle_engine_constructed : NewUIntEngine cycle_params = Ok cycle_engine.
Proof. reflexivity. Defined.

Lemma NewUIntEngine_initial_state_witness :
  currValue cycle_engine = 0 /\ domainLen cycle_engine = 4
  /\ step (par cycle_engine) = 1
  /\ par cycle_engine = cycle_params.
Proof.
  exact (NewUIntEngine_initial_state cycle_params cycle_engine
           cycle_params_wf cycle_engine_constructed).
Defined.

(** The closed form of a run of increments, with the step as configured. *)
Lemma Updates_inc_constructed
  (p : UIntEngineParams) (o : UIntEngine) (calls : list (list byte * Z)) :
  params_wf p -> NewUIntEngine p = Ok o -> op p = "inc"%string ->
  Forall (fun c => size p <= Z.of_nat (length (fst c))) calls ->
  currValue (Updates o calls)
  = minValue p
    + (currValue o - minValue p + Z.of_nat (length calls) * step p)
      mod (maxValue p - minValue p + 1).
Proof.
  intros Hwf Hnew Hop Hall.
  destruct (NewUIntEngine_inv p o Hwf Hnew) as (Hinv & Hmin & Hmax & Hsz & Hop').
  pose proof (NewUIntEngine_valid p o Hnew) as Hval.
  rewrite (Updates_inc_closed_form calls o Hinv Hval);
    [| congruence | now rewrite Hsz].
  rewrite Hmin, Hmax. f_equal.
  rewrite Z.add_mod by (destruct Hinv; lia).
  rewrite (Z.mul_mod _ (step (par o))) by (destruct Hinv; lia).
  rewrite (NewUIntEngine_step_congruent p o Hwf Hnew).
  rewrite <- Z.mul_mod by (destruct Hinv; lia).
  rewrite <- Z.add_mod by (destruct Hinv; lia).
  reflexivity.
Qed.

(** X4: for an engine built with operation inc, after n calls of [Update] on
    slices that are long enough the current value is
    minValue + ((start - minValue + n * step) mod (maxValue - minValue + 1)),
    where start is the initial value and step is the step as configured,
    reduced or not. *)
Theorem Updates_inc_value
  (p : UIntEngineParams) (o : UIntEngine) (calls : list (list byte * Z)) :
  params_wf p -> NewUIntEngine p = Ok o -> op p = "inc"%string ->
  Forall (fun c => size p <= Z.of_nat (length (fst c))) calls ->
  currValue (Updates o calls)
  = minValue p
    + (currValue o - minValue p + Z.of_nat (length calls) * step p)
      mod (maxValue p - minValue p + 1).
Proof. exact (Updates_inc_constructed p o calls). Qed.

Lemma Updates_inc_value_witness :
  currValue (Updates cycle_engine
               [([0; 0], 0); ([1; 1; 1], 0); ([2; 2], 0); ([3; 3], 0);
                ([4; 4], 0); ([5; 5], 0)])
  = minValue cycle_params
    + (currValue cycle_engine - minValue cycle_params
       + Z.of_nat 6 * step cycle_params)
      mod (maxValue cycle_params - minValue cycle_params + 1).
Proof.
  refine (Updates_inc_value cycle_params cycle_engine
            [([0; 0], 0); ([1; 1; 1], 0); ([2; 2], 0); ([3; 3], 0);
             ([4; 4], 0); ([5; 5], 0)]
            cycle_params_wf cycle_engine_constructed eq_refl _).
  repeat (constructor; [cbn; lia |]). constructor.
Defined.

(** X5: for an engine built with operation inc, a run of [Update] calls on
    slices that are long enough, as many as the domain has values, brings the
    current value back to where it started; and with step 1 no shorter run,
    if not empty, does. *)
Theorem Updates_inc_full_cycle
  (p : UIntEngineParams) (o : UIntEngine) (calls : list (list byte * Z)) :
  params_wf p -> NewUIntEngine p = Ok o -> op p = "inc"%string ->
  Forall (fun c => size p <= Z.of_nat (length (fst c))) calls ->
  (Z.of_nat (length calls) = maxValue p - minValue p + 1 ->
   currValue (Updates o calls) = currValue o)
  /\ (step p = 1 ->
      0 < Z.of_nat (length calls) < maxValue p - minValue p + 1 ->
      currValue (Updates o calls) <> currValue o).
Proof.
  intros Hwf Hnew Hop Hall.
  rewrite (Updates_inc_constructed p o calls Hwf Hnew Hop Hall).
  destruct (NewUIntEngine_inv p o Hwf Hnew) as (Hinv & Hmin & Hmax & _).
  destruct Hinv as (H0 & Hc & Hm & _). rewrite Hmin, Hmax in *.
  set (D := maxValue p - minValue p + 1) in *.
  set (x := currValue o - minValue p) in *.
  split.
  - intros ->. rewrite (Z.mul_comm D), Z.mod_add by (unfold D; lia).
    rewrite Z.mod_small by (unfold x, D; lia). unfold x. lia.
  - intros -> Hn Heq. rewrite Z.mul_1_r in Heq.
    destruct (Z.lt_ge_cases (x + Z.of_nat (length calls)) D).
    + rewrite Z.mod_small in Heq by (unfold x in *; lia). unfold x in *. lia.
    + rewrite <- (Z.mod_unique (x + Z.of_nat (length calls)) D 1
                    (x + Z.of_nat (length calls) - D)) in Heq
        by (unfold x, D in *; lia).
      unfold x in *. lia.
Qed.

Lemma Updates_inc_full_cycle_witness :
  currValue (Updates cycle_engine
               [([0; 0], 0); ([1; 1; 1], 0); ([2; 2], 0); ([3; 3], 0)])
  = currValue cycle_engine.
Proof.
  refine (proj1 (Updates_inc_full_cycle cycle_params cycle_engine
                   [([0; 0], 0); ([1; 1; 1], 0); ([2; 2], 0); ([3; 3], 0)]
                   cycle_params_wf cycle_engine_constructed eq_refl _) _).
  - repeat (constructor; [cbn; lia |]). constructor.
  - reflexivity.
Defined.

(** ** What a successful update leaves in the slice *)

(** X6: with an engine that satisfies the invariant, parameters that pass
    validation and a slice that is long enough, [Update] returns no error,
    keeps the length of the slice, leaves on its first [size] bytes the
    big-endian encoding of the current value (decoding them gives the value
    back) and leaves every later byte as it was. *)
Theorem Update_wire_format (o : UIntEngine) (b : list byte) (g : Z) :
  engine_inv o -> valid_config (par o) ->
  size (par o) <= Z.of_nat (length b) ->
  ret (Update o b g) = Ok tt
  /\ length (buf (Update o b g)) = length b
  /\ be_decode (take (Z.to_nat (size (par o))) (buf (Update o b g)))
     = currValue o
  /\ drop (Z.to_nat (size (par o))) (buf (Update o b g))
     = drop (Z.to_nat (size (par o))) b.
Proof.
  intros Hinv Hval Hlen.
  destruct (Update_writes o b g Hinv Hval Hlen) as (o' & _ & ->).
  cbn [ret buf].
  destruct (valid_config_fit o Hinv Hval) as [Hsize Hfit].
  assert (Hn : 0 <= size (par o)) by (cbn in Hsize; lia).
  split; [reflexivity |].
  split.
  { rewrite length_app, length_be_encode, length_drop. lia. }
  split.
  - rewrite take_app_length' by now rewrite length_be_encode.
    rewrite be_decode_encode, Z2Nat.id by lia.
    apply Z.mod_small. lia.
  - apply drop_app_length'. now rewrite length_be_encode.
Qed.

Lemma cycle_engine_valid : valid_config (par cycle_engine).
Proof. exact (NewUIntEngine_valid _ _ cycle_engine_constructed). Defined.

Lemma Update_wire_format_witness :
  ret (Update cycle_engine [7; 8; 9] 0) = Ok tt
  /\ length (buf (Update cycle_engine [7; 8; 9] 0)) = length [7; 8; 9]
  /\ be_decode (take (Z.to_nat (size (par cycle_engine)))
                  (buf (Update cycle_engine [7; 8; 9] 0)))
     = currValue cycle_engine
  /\ drop (Z.to_nat (size (par cycle_engine)))
       (buf (Update cycle_engine [7; 8; 9] 0))
     = drop (Z.to_nat (size (par cycle_engine))) [7; 8; 9].
Proof.
  apply (Update_wire_format cycle_engine [7; 8; 9] 0
           cycle_engine_inv cycle_engine_valid).
  cbn. lia.
Defined.

(** X7: for an engine built by [NewUIntEngine], after any calls, [Update]
    returns the size error when the slice is shorter than the size and no
    error otherwise: the errors of the default cases of the two switches are
    never returned and the call never aborts. *)
Theorem Update_constructed_result
  (p : UIntEngineParams) (o : UIntEngine) (calls : list (list byte * Z))
  (b : list byte) (g : Z) :
  params_wf p -> NewUIntEngine p = Ok o ->
  ret (Update (Updates o calls) b g)
  = if Z.of_nat (length b) <? size p
    then Err (ErrShortSlice (size p) (Z.of_nat (length b)))
    else Ok tt.
Proof.
  intros Hwf Hnew.
  destruct (Updates_reached p o calls Hwf Hnew)
    as (Hinv & Hval & _ & _ & Hsz & _).
  destruct (Z.ltb_spec (Z.of_nat (length b)) (size p)) as [Hshort | Hlong].
  - unfold Update. rewrite Hsz.
    destruct (Z.ltb_spec (Z.of_nat (length b)) (size p)); [reflexivity | lia].
  - destruct (Update_writes (Updates o calls) b g Hinv Hval
                ltac:(rewrite Hsz; exact Hlong)) as (o' & _ & ->).
    reflexivity.
Qed.

Lemma Update_constructed_result_witness :
  ret (Update (Updates cycle_engine [([0; 0], 0); ([], 1)]) [5] 2)
  = Err (ErrShortSlice 2 1)
  /\ ret (Update (Updates cycle_engine [([0; 0], 0); ([], 1)]) [5; 6] 2)
     = Ok tt.
Proof.
  split.
  - exact (Update_constructed_result cycle_params cycle_engine
             [([0; 0], 0); ([], 1)] [5] 2
             cycle_params_wf cycle_engine_constructed).
  - exact (Update_constructed_result cycle_params cycle_engine
             [([0; 0], 0); ([], 1)] [5; 6] 2
             cycle_params_wf cycle_engine_constructed).
Defined.

(** X8: when the operation of an engine is none of inc, dec and rand (which
    construction excludes), [Update] on a slice that is long enough first
    writes the current value and then returns the error of the default case
    of [PerformOp]: the call fails with the slice already written and the
    engine unchanged. *)
Theorem Update_unrecognized_operation
  (o : UIntEngine) (b : list byte) (g : Z) :
  In (size (par o)) [1; 2; 4; 8] ->
  0 <= currValue o <= 2 ^ (8 * size (par o)) - 1 ->
  size (par o) <= Z.of_nat (length b) ->
  ~ In (op (par o)) ["inc"; "dec"; "rand"]%string ->
  Update o b g
  = mkOutcome (Err ErrUnrecognizedOperation)
      (be_encode (Z.to_nat (size (par o))) (currValue o)
       ++ drop (Z.to_nat (size (par o))) b) o.
Proof.
  intros Hsize Hfit Hlen Hop.
  rewrite (Update_write_phase o b g Hsize Hfit Hlen). cbv zeta.
  unfold PerformOp.
  destruct (String.eqb_spec (op (par o)) "inc") as [He | _];
    [exfalso; apply Hop; rewrite He; cbn; auto |].
  destruct (String.eqb_spec (op (par o)) "dec") as [He | _];
    [exfalso; apply Hop; rewrite He; cbn; auto |].
  destruct (String.eqb_spec (op (par o)) "rand") as [He | _];
    [exfalso; apply Hop; rewrite He; cbn; auto |].
  reflexivity.
Qed.

Lemma Update_unrecognized_operation_witness :
  Update bogus_op_engine [0; 5] 3
  = mkOutcome (Err ErrUnrecognizedOperation) [7; 5] bogus_op_engine.
Proof.
  refine (Update_unrecognized_operation bogus_op_engine [0; 5] 3 _ _ _ _).
  - cbn. auto.
  - cbn. lia.
  - cbn. lia.
  - cbn. intros [H | [H | [H | []]]]; discriminate H.
Defined.

(** ** Which error construction reports *)

(** X9: when several conditions on the parameters fail, [NewUIntEngine]
    returns the error of the check made last among those that fail: an
    unsupported operation before anything else, then an invalid size, then
    a maxValue that the width cannot hold, then an initial value outside
    the domain, then reversed bounds. *)
Theorem NewUIntEngine_reported_error (p : UIntEngineParams) :
  match reported_error p with
  | Some e => NewUIntEngine p = Err e
  | None => exists o, NewUIntEngine p = Ok o
  end.
Proof.
  assert (Hv : validateParams p
               = match reported_error p with
                 | Some e => Err e
                 | None => Ok tt
                 end).
  { unfold validateParams, reported_error, findValue, findValue_from.
    unfold MaxUint8, MaxUint16, MaxUint32, MaxUint64.
    destruct p as [sz off o st mn mx ini];
      cbn [size offset op step minValue maxValue initValue existsb].
    rewrite !(Z.eqb_sym sz).
    destruct (Z.eqb_spec 1 sz);
      [| destruct (Z.eqb_spec 2 sz);
         [| destruct (Z.eqb_spec 4 sz); [| destruct (Z.eqb_spec 8 sz)]]];
      subst;
      try change (2 ^ (8 * 1)) with (2 ^ 8);
      try change (2 ^ (8 * 2)) with (2 ^ 16);
      try change (2 ^ (8 * 4)) with (2 ^ 32);
      try change (2 ^ (8 * 8)) with (2 ^ 64);
      simpl; rewrite ?Z.gtb_ltb;
      repeat match goal with
        | |- context [String.eqb ?a ?b] => destruct (String.eqb a b)
        | |- context [Z.ltb ?a ?b] => destruct (Z.ltb a b)
        | |- context [Z.eqb ?a ?b] => destruct (Z.eqb a b)
        end; reflexivity. }
  destruct (reported_error p) as [e |].
  - unfold NewUIntEngine. rewrite Hv. reflexivity.
  - rewrite (NewUIntEngine_Ok p Hv). cbv zeta. eauto.
Qed.

(** ** findValue *)

Lemma findValue_from_spec (arr : list Z) (val : Z) :
  forall k : Z,
    match findValue_from k arr val with
    | (i, true) =>
        k <= i
        /\ arr !! Z.to_nat (i - k) = Some val
        /\ forall j : nat, (j < Z.to_nat (i - k))%nat -> arr !! j <> Some val
    | (i, false) => i = -1 /\ ~ In val arr
    end.
Proof.
  induction arr as [| item rest IH]; intros k; cbn [findValue_from].
  - split; [reflexivity | intros []].
  - destruct (Z.eqb_spec item val) as [-> | Hne].
    + rewrite Z.sub_diag. split; [lia |]. split; [reflexivity |].
      intros j Hj. cbn in Hj. lia.
    + specialize (IH (k + 1)).
      destruct (findValue_from (k + 1) rest val) as [i [|]].
      * destruct IH as (Hk & Hi & Hfirst).
        replace (Z.to_nat (i - k)) with (S (Z.to_nat (i - (k + 1)))) by lia.
        split; [lia |]. split; [exact Hi |].
        intros [| j] Hj; cbn [lookup list_lookup].
        -- intros Heq. injection Heq as Heq. contradiction.
        -- apply Hfirst. lia.
      * destruct IH as [Hi Hnot]. split; [exact Hi |].
        intros [Heq | Hin]; [contradiction | exact (Hnot Hin)].
Qed.

(** X10: [findValue] returns the index of the first element equal to the
    value looked for, with true, and -1 with false exactly when no element
    is equal to it. *)
Theorem findValue_first_occurrence (arr : list Z) (val : Z) :
  match findValue arr val with
  | (i, true) =>
      0 <= i
      /\ arr !! Z.to_nat i = Some val
      /\ forall j : nat, (j < Z.to_nat i)%nat -> arr !! j <> Some val
  | (i, false) => i = -1 /\ ~ In val arr
  end.
Proof.
  unfold findValue. pose proof (findValue_from_spec arr val 0) as H.
  destruct (findValue_from 0 arr val) as [i [|]]; [| exact H].
  rewrite Z.sub_0_r in H. exact H.
Qed.

(** * Further properties of the histogram engine and its entries *)

(** X11: when the slice is long enough and the sampled entry returns at
    least as many bytes as the size of the field, [Update] returns no error
    and leaves in the slice the first [size] bytes of what the entry
    returned, followed by the bytes of the slice beyond the field: what the
    entry returned beyond the size is dropped, and the engine is as it
    was. *)
Theorem HistogramEngine_Update_truncating_copy
  {G : Type} (o : HistogramEngine.t G) (b : list byte) (entryIndex g : Z)
  (e : entry) (newValueBytes : list byte) :
  0 <= HistogramEngine.size (HistogramEngine.par o) <= Z.of_nat (length b) ->
  0 <= entryIndex ->
  HistogramEngine.entries (HistogramEngine.par o) !! Z.to_nat entryIndex
    = Some e ->
  entry_GetValue e g = Ok newValueBytes ->
  HistogramEngine.size (HistogramEngine.par o)
    <= Z.of_nat (length newValueBytes) ->
  HistogramEngine.Update o b entryIndex g
  = mkOutcome (Ok tt)
      (take (Z.to_nat (HistogramEngine.size (HistogramEngine.par o)))
         newValueBytes
       ++ drop (Z.to_nat (HistogramEngine.size (HistogramEngine.par o))) b)
      o.
Proof. exact (HistogramEngine_Update_copies o b entryIndex g e newValueBytes). Qed.

Lemma HistogramEngine_Update_truncating_copy_witness :
  HistogramEngine.Update fixed_histogram [9; 9; 9] 0 0
  = mkOutcome (Ok tt) [1; 2; 9] fixed_histogram.
Proof.
  refine (HistogramEngine_Update_truncating_copy fixed_histogram [9; 9; 9]
            0 0 (Entry fixed_entry) [1; 2; 3; 4] _ _ _ _ _).
  - cbn. lia.
  - lia.
  - reflexivity.
  - reflexivity.
  - cbn. lia.
Defined.

(** X12: when the slice is long enough and the sampled entry returns fewer
    bytes than the size of the field, [Update] returns the error that tells
    the two lengths and leaves the slice and the engine as they were. *)
Theorem HistogramEngine_Update_short_value
  {G : Type} (o : HistogramEngine.t G) (b : list byte) (entryIndex g : Z)
  (e : entry) (newValueBytes : list byte) :
  HistogramEngine.size (HistogramEngine.par o) <= Z.of_nat (length b) ->
  0 <= entryIndex ->
  HistogramEngine.entries (HistogramEngine.par o) !! Z.to_nat entryIndex
    = Some e ->
  entry_GetValue e g = Ok newValueBytes ->
  Z.of_nat (length newValueBytes)
    < HistogramEngine.size (HistogramEngine.par o) ->
  HistogramEngine.Update o b entryIndex g
  = mkOutcome
      (Err (ErrShortNewValue (HistogramEngine.size (HistogramEngine.par o))
              (Z.of_nat (length newValueBytes)))) b o.
Proof.
  intros Hlen Hi He Hval Hshort. unfold HistogramEngine.Update.
  destruct (Z.ltb_spec (Z.of_nat (length b))
              (HistogramEngine.size (HistogramEngine.par o))); [lia |].
  destruct (Z.ltb_spec entryIndex 0); [lia |].
  rewrite He, Hval.
  destruct (Z.ltb_spec (Z.of_nat (length newValueBytes))
              (HistogramEngine.size (HistogramEngine.par o)));
    [reflexivity | lia].
Qed.

Lemma HistogramEngine_Update_short_value_witness :
  HistogramEngine.Update wide_histogram (replicate 8 5) 0 0
  = mkOutcome (Err (ErrShortNewValue 8 4)) (replicate 8 5) wide_histogram.
Proof.
  refine (HistogramEngine_Update_short_value wide_histogram (replicate 8 5)
            0 0 (Entry fixed_entry) [1; 2; 3; 4] _ _ _ _ _).
  - cbn. lia.
  - lia.
  - reflexivity.
  - reflexivity.
  - cbn. lia.
Defined.

(** X13: when the sampled index is not an index of the entries, [Update] on
    a slice that is long enough aborts on the indexing, with the slice
    untouched; on a slice that is too short the size error comes first. *)
Theorem HistogramEngine_Update_index_out_of_range
  {G : Type} (o : HistogramEngine.t G) (b : list byte) (entryIndex g : Z) :
  HistogramEngine.size (HistogramEngine.par o) <= Z.of_nat (length b) ->
  entryIndex < 0
  \/ Z.of_nat (length (HistogramEngine.entries (HistogramEngine.par o)))
     <= entryIndex ->
  HistogramEngine.Update o b entryIndex g
  = mkOutcome (Panic PanicIndexOutOfRange) b o.
Proof.
  intros Hlen Hi. unfold HistogramEngine.Update.
  destruct (Z.ltb_spec (Z.of_nat (length b))
              (HistogramEngine.size (HistogramEngine.par o))); [lia |].
  destruct (Z.ltb_spec entryIndex 0); [reflexivity |].
  rewrite lookup_ge_None_2 by lia. reflexivity.
Qed.

Lemma HistogramEngine_Update_index_out_of_range_witness :
  HistogramEngine.Update fixed_histogram [9; 9] 1 0
  = mkOutcome (Panic PanicIndexOutOfRange) [9; 9] fixed_histogram.
Proof.
  refine (HistogramEngine_Update_index_out_of_range fixed_histogram [9; 9]
            1 0 _ _).
  - cbn. lia.
  - right. cbn. lia.
Defined.

(** ** The entries over uint32 *)

(** X14: the fixed entry never fails: it returns the four big-endian bytes
    of its value, which decode to the value. *)
Theorem HistogramUInt32Entry_GetValue_spec
  (o : HistogramUInt32Entry.t) (g : Z) :
  is_uint32 (HistogramUInt32Entry.v o) ->
  HistogramUInt32Entry.GetValue o g
  = Ok (be_encode 4 (HistogramUInt32Entry.v o))
  /\ length (be_encode 4 (HistogramUInt32Entry.v o)) = 4%nat
  /\ be_decode (be_encode 4 (HistogramUInt32Entry.v o))
     = HistogramUInt32Entry.v o.
Proof.
  intros Hv. split; [reflexivity |]. split; [reflexivity |].
  rewrite be_decode_encode. apply Z.mod_small.
  unfold is_uint32, MaxUint32 in Hv. cbn. lia.
Qed.

Lemma HistogramUInt32Entry_GetValue_spec_witness :
  HistogramUInt32Entry.GetValue fixed_entry 0 = Ok [1; 2; 3; 4]
  /\ length (be_encode 4 (HistogramUInt32Entry.v fixed_entry)) = 4%nat
  /\ be_decode (be_encode 4 (HistogramUInt32Entry.v fixed_entry))
     = 0x01020304.
Proof.
  refine (HistogramUInt32Entry_GetValue_spec fixed_entry 0 _).
  unfold is_uint32, MaxUint32. cbn. lia.
Defined.

(** X15: a range entry over bounds of type uint32 that are in order and do
    not span the whole of uint32 returns, for every draw, the four
    big-endian bytes of a number of the range, which decode to it. *)
Theorem HistogramUInt32RangeEntry_GetValue_in_range
  (o : HistogramUInt32RangeEntry.t) (g : Z) :
  0 <= HistogramUInt32RangeEntry.min o ->
  HistogramUInt32RangeEntry.min o <= HistogramUInt32RangeEntry.max o ->
  HistogramUInt32RangeEntry.max o <= MaxUint32 ->
  ~ (HistogramUInt32RangeEntry.min o = 0
     /\ HistogramUInt32RangeEntry.max o = MaxUint32) ->
  exists v,
    HistogramUInt32RangeEntry.min o <= v <= HistogramUInt32RangeEntry.max o
    /\ HistogramUInt32RangeEntry.GetValue o g = Ok (be_encode 4 v)
    /\ be_decode (be_encode 4 v) = v.
Proof. exact (HistogramUInt32RangeEntry_in_range o g). Qed.

Lemma HistogramUInt32RangeEntry_GetValue_in_range_witness :
  exists v,
    10 <= v <= 20
    /\ HistogramUInt32RangeEntry.GetValue small_range_entry 500
       = Ok (be_encode 4 v)
    /\ be_decode (be_encode 4 v) = v.
Proof.
  refine (HistogramUInt32RangeEntry_GetValue_in_range small_range_entry 500
            _ _ _ _).
  - cbn. lia.
  - cbn. lia.
  - cbn. unfold MaxUint32. lia.
  - cbn. intros [H _]. discriminate H.
Defined.

(** X16: the list entry returns its error on an empty list, whatever the
    draw; on a list that is not empty, with a draw that is an index of the
    list, it returns the four big-endian bytes of the element at that
    index, so never a value from outside the list. *)
Theorem HistogramUInt32ListEntry_GetValue_spec
  (o : HistogramUInt32ListEntry.t) (g : Z) :
  (HistogramUInt32ListEntry.list o = [] ->
   HistogramUInt32ListEntry.GetValue o g = Err ErrEmptyUInt32List)
  /\ (0 <= g < Z.of_nat (length (HistogramUInt32ListEntry.list o)) ->
      exists x,
        HistogramUInt32ListEntry.list o !! Z.to_nat g = Some x
        /\ In x (HistogramUInt32ListEntry.list o)
        /\ HistogramUInt32ListEntry.GetValue o g = Ok (be_encode 4 x)).
Proof.
  destruct o as [l pr]. cbn [HistogramUInt32ListEntry.list].
  unfold HistogramUInt32ListEntry.GetValue.
  cbn [HistogramUInt32ListEntry.list]. split.
  - intros ->. reflexivity.
  - intros Hg.
    destruct (lookup_lt_is_Some_2 l (Z.to_nat g) ltac:(lia)) as [x Hx].
    exists x. split; [exact Hx |].
    split. { apply list_elem_of_In. eapply list_elem_of_lookup_2. exact Hx. }
    destruct l as [| y l']; [cbn in Hg; lia |].
    cbn [length Nat.eqb].
    change (make 4) with (@Ok (list byte) [0; 0; 0; 0]). cbn [bind].
    unfold Intn.
    destruct (Z.leb_spec (Z.of_nat (S (length l'))) 0); [lia |].
    cbn [bind]. unfold index_list.
    destruct (Z.ltb_spec g 0); [lia |]. rewrite Hx. reflexivity.
Qed.

(** X17: a histogram field narrower than four bytes over a fixed uint32
    entry keeps the most significant bytes of the value: the first [size]
    bytes of the slice decode to the value shifted right by the bytes that
    were cut, and the rest of the slice is kept. *)
Theorem HistogramEngine_fixed_entry_truncates
  {G : Type} (o : HistogramEngine.t G) (b : list byte) (entryIndex g : Z)
  (e : HistogramUInt32Entry.t) :
  0 <= entryIndex ->
  HistogramEngine.entries (HistogramEngine.par o) !! Z.to_nat entryIndex
    = Some (Entry e) ->
  is_uint32 (HistogramUInt32Entry.v e) ->
  0 <= HistogramEngine.size (HistogramEngine.par o) <= 4 ->
  HistogramEngine.size (HistogramEngine.par o) <= Z.of_nat (length b) ->
  let n := Z.to_nat (HistogramEngine.size (HistogramEngine.par o)) in
  ret (HistogramEngine.Update o b entryIndex g) = Ok tt
  /\ be_decode (take n (buf (HistogramEngine.Update o b entryIndex g)))
     = HistogramUInt32Entry.v e
       / 2 ^ (8 * (4 - HistogramEngine.size (HistogramEngine.par o)))
  /\ drop n (buf (HistogramEngine.Update o b entryIndex g)) = drop n b.
Proof.
  intros Hi He Hv Hsz Hlen n.
  rewrite (HistogramEngine_Update_copies o b entryIndex g (Entry e)
             (be_encode 4 (HistogramUInt32Entry.v e)))
    by (try assumption; try reflexivity; cbn [length be_encode]; lia).
  cbn [ret buf]. fold n.
  set (sz := HistogramEngine.size (HistogramEngine.par o)) in *.
  assert (Hn : length (take n (be_encode 4 (HistogramUInt32Entry.v e))) = n).
  { rewrite length_take, length_be_encode. lia. }
  split; [reflexivity |]. split.
  - rewrite take_app_length' by (symmetry; exact Hn).
    unfold is_uint32, MaxUint32 in Hv.
    set (v := HistogramUInt32Entry.v e) in *.
    assert (Hcases : sz = 0 \/ sz = 1 \/ sz = 2 \/ sz = 3 \/ sz = 4) by lia.
    destruct Hcases as [Hs | [Hs | [Hs | [Hs | Hs]]]];
      subst n; rewrite Hs; cbn [be_encode]; unfold be_decode, uint8;
      rewrite ?Z.shiftr_div_pow2 by lia;
      match goal with
      | |- context [Z.to_nat ?z] =>
          let k := eval vm_compute in (Z.to_nat z) in
          change (Z.to_nat z) with k
      end;
      repeat match goal with
        | |- context [8 * Z.of_nat ?m] =>
            let k := eval vm_compute in (8 * Z.of_nat m) in
            change (8 * Z.of_nat m) with k
        | |- context [8 * (4 - ?m)] =>
            let k := eval vm_compute in (8 * (4 - m)) in
            change (8 * (4 - m)) with k
        end;
      cbn [firstn fold_left]; Z.div_mod_to_equations; lia.
  - apply drop_app_length'. symmetry. exact Hn.
Qed.

Lemma HistogramEngine_fixed_entry_truncates_witness :
  ret (HistogramEngine.Update fixed_histogram [9; 9; 9] 0 0) = Ok tt
  /\ be_decode (take 2 (buf (HistogramEngine.Update fixed_histogram
                               [9; 9; 9] 0 0)))
     = 0x01020304 / 2 ^ 16
  /\ drop 2 (buf (HistogramEngine.Update fixed_histogram [9; 9; 9] 0 0))
     = [9].
Proof.
  refine (HistogramEngine_fixed_entry_truncates fixed_histogram [9; 9; 9] 0 0
            fixed_entry _ _ _ _ _).
  - lia.
  - reflexivity.
  - unfold is_uint32, MaxUint32. cbn. lia.
  - cbn. lia.
  - cbn. lia.
Defined.

(** ** The entries over runes *)

Lemma int32_small (x : Z) : - 2 ^ 31 <= x < 2 ^ 31 -> int32 x = x.
Proof. unfold int32. intros H. rewrite Z.mod_small by lia. lia. Qed.

(** Allocating [RuneLen r] bytes and encoding [r] into them succeeds for a
    rune that UTF-8 encodes. *)
Lemma encode_encodable (r : Z) :
  encodable r ->
  exists b,
    (b <- make (RuneLen r) ;; b <- EncodeRune b r ;; Ok b) = Ok b
    /\ Z.of_nat (length b) = RuneLen r.
Proof.
  intros [Hr Hs].
  exact (HistogramRuneEntry_valid_rune (HistogramRuneEntry.mk r 0) 0 Hr Hs).
Qed.

(** X18: on a rune that UTF-8 encodes the rune entry returns, without
    error, between one and four bytes, as many as [RuneLen] tells. *)
Theorem HistogramRuneEntry_GetValue_encodable
  (o : HistogramRuneEntry.t) (g : Z) :
  encodable (HistogramRuneEntry.r o) ->
  exists b,
    HistogramRuneEntry.GetValue o g = Ok b
    /\ Z.of_nat (length b) = RuneLen (HistogramRuneEntry.r o)
    /\ 1 <= RuneLen (HistogramRuneEntry.r o) <= 4.
Proof.
  intros [Hr Hs].
  destruct (HistogramRuneEntry_valid_rune o g Hr Hs) as (b & Hb & Hlen).
  exists b. split; [exact Hb |]. split; [exact Hlen |].
  unfold RuneLen, MaxRune, surrogateMin, surrogateMax, rune1Max, rune2Max,
    rune3Max in *.
  repeat match goal with
    | |- context [?a <? ?c] => destruct (Z.ltb_spec a c)
    | |- context [?a <=? ?c] => destruct (Z.leb_spec a c)
    end; cbn [andb]; lia.
Qed.

Lemma HistogramRuneEntry_GetValue_encodable_witness :
  exists b,
    HistogramRuneEntry.GetValue euro_entry 0 = Ok b
    /\ Z.of_nat (length b) = RuneLen (HistogramRuneEntry.r euro_entry)
    /\ 1 <= RuneLen (HistogramRuneEntry.r euro_entry) <= 4.
Proof.
  refine (HistogramRuneEntry_GetValue_encodable euro_entry 0 _).
  unfold encodable. cbn. unfold MaxRune, surrogateMin, surrogateMax. lia.
Defined.

(** X19: the rune range entry returns its error when the bounds are
    reversed; over a range of runes that UTF-8 encodes (it does not meet
    the surrogate halves) and with a draw below the length of the range, it
    returns without error the bytes of the rune min + draw, as many as
    [RuneLen] tells, and that rune lies in the range. *)
Theorem HistogramRuneRangeEntry_GetValue_spec
  (o : HistogramRuneRangeEntry.t) (g : Z) :
  (HistogramRuneRangeEntry.max o < HistogramRuneRangeEntry.min o ->
   HistogramRuneRangeEntry.GetValue o g
   = Err (ErrMaxSmallerThanMin (HistogramRuneRangeEntry.max o)
            (HistogramRuneRangeEntry.min o)))
  /\ (0 <= HistogramRuneRangeEntry.min o ->
      HistogramRuneRangeEntry.min o <= HistogramRuneRangeEntry.max o ->
      HistogramRuneRangeEntry.max o <= MaxRune ->
      HistogramRuneRangeEntry.max o < surrogateMin
      \/ surrogateMax < HistogramRuneRangeEntry.min o ->
      0 <= g < HistogramRuneRangeEntry.max o - HistogramRuneRangeEntry.min o + 1 ->
      exists b,
        HistogramRuneRangeEntry.GetValue o g = Ok b
        /\ Z.of_nat (length b) = RuneLen (HistogramRuneRangeEntry.min o + g)
        /\ HistogramRuneRangeEntry.min o
           <= HistogramRuneRangeEntry.min o + g
           <= HistogramRuneRangeEntry.max o).
Proof.
  destruct o as [mn mx pr].
  unfold HistogramRuneRangeEntry.GetValue.
  cbn [HistogramRuneRangeEntry.min HistogramRuneRangeEntry.max]. split.
  - intros Hlt. destruct (Z.ltb_spec mx mn); [reflexivity | lia].
  - intros H0 Hle Hmax Hsur Hg. unfold MaxRune in Hmax.
    destruct (Z.ltb_spec mx mn); [lia |].
    rewrite (int32_small (mx - mn)) by lia.
    rewrite (int32_small (mx - mn + 1)) by lia.
    unfold Intn. destruct (Z.leb_spec (mx - mn + 1) 0); [lia |].
    cbn [bind]. rewrite (int32_small g) by lia.
    rewrite (int32_small (mn + g)) by lia.
    destruct (encode_encodable (mn + g)) as (b & Hb & Hlen).
    { unfold encodable, MaxRune, surrogateMin, surrogateMax in *. lia. }
    exists b. split; [exact Hb |]. split; [exact Hlen | lia].
Qed.

(** X20: the rune range entry aborts when the rune it draws is one that
    UTF-8 does not encode (a surrogate half, a negative rune, a rune above
    [MaxRune]): [RuneLen] is -1 and [make] panics on the negative length. *)
Theorem HistogramRuneRangeEntry_unencodable_panics
  (o : HistogramRuneRangeEntry.t) (g : Z) :
  is_rune (HistogramRuneRangeEntry.min o) ->
  is_rune (HistogramRuneRangeEntry.max o) ->
  HistogramRuneRangeEntry.min o <= HistogramRuneRangeEntry.max o ->
  HistogramRuneRangeEntry.max o - HistogramRuneRangeEntry.min o + 1 < 2 ^ 31 ->
  0 <= g < HistogramRuneRangeEntry.max o - HistogramRuneRangeEntry.min o + 1 ->
  RuneLen (HistogramRuneRangeEntry.min o + g) = -1 ->
  HistogramRuneRangeEntry.GetValue o g = Panic PanicMakeSliceLen.
Proof.
  destruct o as [mn mx pr].
  unfold HistogramRuneRangeEntry.GetValue, is_rune.
  cbn [HistogramRuneRangeEntry.min HistogramRuneRangeEntry.max].
  intros Hmn Hmx Hle Hsmall Hg Hlen.
  destruct (Z.ltb_spec mx mn); [lia |].
  rewrite (int32_small (mx - mn)) by lia.
  rewrite (int32_small (mx - mn + 1)) by lia.
  unfold Intn. destruct (Z.leb_spec (mx - mn + 1) 0); [lia |].
  cbn [bind]. rewrite (int32_small g) by lia.
  rewrite (int32_small (mn + g)) by lia.
  rewrite Hlen. reflexivity.
Qed.

Lemma HistogramRuneRangeEntry_unencodable_panics_witness :
  HistogramRuneRangeEntry.GetValue
    (HistogramRuneRangeEntry.mk 0xD7FF 0xE000 1) 1
  = Panic PanicMakeSliceLen.
Proof.
  refine (HistogramRuneRangeEntry_unencodable_panics
            (HistogramRuneRangeEntry.mk 0xD7FF 0xE000 1) 1 _ _ _ _ _ _).
  - unfold is_rune. cbn. lia.
  - unfold is_rune. cbn. lia.
  - cbn. lia.
  - cbn. lia.
  - cbn. lia.
  - reflexivity.
Defined.

(** X21: the rune list entry returns its error on an empty list; on a list
    that is not empty, with a draw that is an index of the list and an
    element there that UTF-8 encodes, it returns without error the bytes of
    that element, as many as [RuneLen] tells. *)
Theorem HistogramRuneListEntry_GetValue_spec
  (o : HistogramRuneListEntry.t) (g : Z) :
  (HistogramRuneListEntry.list o = [] ->
   HistogramRuneListEntry.GetValue o g = Err ErrEmptyRuneList)
  /\ (forall r : Z,
        0 <= g ->
        HistogramRuneListEntry.list o !! Z.to_nat g = Some r ->
        encodable r ->
        exists b,
          HistogramRuneListEntry.GetValue o g = Ok b
          /\ Z.of_nat (length b) = RuneLen r).
Proof.
  destruct o as [l pr]. unfold HistogramRuneListEntry.GetValue.
  cbn [HistogramRuneListEntry.list]. split.
  - intros ->. reflexivity.
  - intros r Hg Hr Henc.
    destruct l as [| y l']; [discriminate Hr |].
    cbn [length Nat.eqb]. unfold Intn.
    destruct (Z.leb_spec (Z.of_nat (S (length l'))) 0); [lia |].
    cbn [bind]. unfold index_list.
    destruct (Z.ltb_spec g 0); [lia |]. rewrite Hr. cbn [bind].
    exact (encode_encodable r Henc).
Qed.

(** * The method repository *)

(** X22: [RegisterMethod] with an empty name or a nil handler returns its
    error and leaves the repository as it was. *)
Theorem RegisterMethod_rejects
  {HandlerIF Ctx : Type} (mr : jsonrpc.MethodRepository HandlerIF Ctx)
  (method : string) (h : option HandlerIF) (noApi : bool) :
  method = ""%string \/ h = None ->
  jsonrpc.RegisterMethod mr method h noApi
  = (Some "jsonrpc: method name and function should not be empty"%string, mr).
Proof.
  intros [-> | ->]; unfold jsonrpc.RegisterMethod.
  - reflexivity.
  - destruct (method =? "")%string; reflexivity.
Qed.

Lemma RegisterMethod_rejects_witness :
  jsonrpc.RegisterMethod (@jsonrpc.NewMethodRepository nat unit) "sum" None true
  = (Some "jsonrpc: method name and function should not be empty"%string,
     jsonrpc.NewMethodRepository).
Proof.
  refine (RegisterMethod_rejects jsonrpc.NewMethodRepository "sum" None true _).
  right. reflexivity.
Defined.





(** In a repository built from the empty one by [RegisterMethod] calls, no
    entry has a nil handler and no entry is under the empty name. *)
Lemma RegisterMethods_entries
  {HandlerIF Ctx : Type}
  (calls : list (string * option HandlerIF * bool)) :
  forall mr : jsonrpc.MethodRepository HandlerIF Ctx,
    (forall k md, jsonrpc.r mr !! k = Some md ->
                  k <> ""%string /\ jsonrpc.Handler md <> None) ->
    forall k md,
      jsonrpc.r (jsonrpc.RegisterMethods mr calls) !! k = Some md ->
      k <> ""%string /\ jsonrpc.Handler md <> None.
Proof.
  induction calls as [| [[method h] noApi] rest IH]; intros mr Hmr;
    cbn [jsonrpc.RegisterMethods]; [exact Hmr |].
  apply IH. unfold jsonrpc.RegisterMethod.
  destruct (String.eqb_spec method "") as [He | Hne]; cbn [orb snd];
    [exact Hmr |].
  destruct h as [h |]; cbn [snd jsonrpc.r]; [| exact Hmr].
  intros k md Hk. destruct (decide (k = method)) as [-> | Hkm].
  - rewrite lookup_insert_eq in Hk. injection Hk as <-.
    split; [exact Hne | discriminate].
  - rewrite lookup_insert_ne in Hk by congruence. exact (Hmr k md Hk).
Qed.

(** X25: on a repository built from the empty one by any [RegisterMethod]
    calls, [TakeMethod] returns one of three things: the error for invalid
    parameters, when the name of the request is empty or its version is not
    that of the package; the error for a method not found; or no error with
    a handler that is not nil. With an error the handler is nil and the
    flag is false. *)
Theorem TakeMethod_result
  {HandlerIF Ctx : Type} (version : string)
  (calls : list (string * option HandlerIF * bool)) (req : jsonrpc.Request) :
  let mr := jsonrpc.RegisterMethods
              (@jsonrpc.NewMethodRepository HandlerIF Ctx) calls in
  (jsonrpc.TakeMethod version mr req
     = (None, Some jsonrpc.ErrInvalidParams, false)
   /\ (jsonrpc.Method req = ""%string \/ jsonrpc.Version req <> version))
  \/ (jsonrpc.TakeMethod version mr req
        = (None, Some jsonrpc.ErrMethodNotFound, false)
      /\ jsonrpc.r mr !! jsonrpc.Method req = None)
  \/ (exists (h : HandlerIF) (noApi : bool),
        jsonrpc.TakeMethod version mr req = (Some h, None, noApi)
        /\ jsonrpc.r mr !! jsonrpc.Method req
           = Some (jsonrpc.mkMetadata (Some h) noApi)).
Proof.
  intros mr. unfold jsonrpc.TakeMethod.
  destruct (String.eqb_spec (jsonrpc.Method req) "") as [He | Hne];
    cbn [orb]; [left; auto |].
  destruct (String.eqb_spec (jsonrpc.Version req) version) as [Hv | Hv];
    cbn [negb]; [| left; auto].
  right.
  destruct (jsonrpc.r mr !! jsonrpc.Method req) as [md |] eqn:Hl;
    [right | left; auto].
  destruct (RegisterMethods_entries calls jsonrpc.NewMethodRepository
              ltac:(intros k md' Hk; cbn in Hk; rewrite lookup_empty in Hk;
                    discriminate Hk)
              _ _ Hl) as [_ Hh].
  destruct md as [[h |] noApi]; cbn [jsonrpc.Handler] in Hh;
    [| contradiction].
  exists h, noApi. split; reflexivity.
Qed.

(** X26: [Methods] returns a map with exactly the entries of the
    repository. *)
Theorem Methods_copy
  {HandlerIF Ctx : Type} (mr : jsonrpc.MethodRepository HandlerIF Ctx) :
  jsonrpc.Methods mr = jsonrpc.r mr.
Proof.
  unfold jsonrpc.Methods.
  apply (map_fold_weak_ind (fun res m => res = m)).
  - reflexivity.
  - intros i x m res _ ->. reflexivity.
Qed.
